(** * The migration orchestrator ([Migrator], migrator.ts)

    A shallow embedding of the [Migrator] class of
    examples/utils/migration-tools/src/migrator.ts.

    The orchestrator is asynchronous code over external collaborators (the
    migration tool, the model loader, the models, an optional data
    transformation callback).  The embedding is a resumption machine:

    - the external objects are opaque references; what the orchestrator can
      read from them synchronously at one instant is a [World].  Nothing is
      assumed about how the world changes between two instants: every
      synchronous stretch runs against an arbitrary world;
    - every call the orchestrator makes on a collaborator, every event it
      emits and every listener it registers is an [Action] of the output
      trace;
    - every [await] of the source is a program point ([MigrationPC],
      [LoadPC]); a suspended attempt is a [Task] holding the constants its
      closure captured and its program point;
    - the synchronous code between two suspension points is one function
      ([resumeMigration], [resumeLoad], [thenCallback], ...), which runs
      against the world of that instant and the settlement of the awaited
      promise (resolved with a value, or rejected);
    - the orchestrator and its surroundings form a [Machine]: the fields of
      the class, the one-time listeners it has registered on tools, and its
      suspended attempts.  The surroundings drive it by firing a registered
      listener or by settling an awaited promise ([step]).

    What the embedding leaves out: the subscribers of the orchestrator's own
    events and [console.error] are taken not to throw; the reason of a
    rejection is opaque; the [console.error] of a rejected attempt is
    recorded in the step in which the rejection arises (no code of the
    orchestrator runs in between). *)

From Stdlib Require Import List String Bool ZArith Lia.
Import ListNotations.
Open Scope string_scope.
Open Scope list_scope.

(** ** Data model *)

(** Object identities of the external collaborators. *)
Definition ModelRef := nat.
Definition ToolRef := nat.
Definition CallbackRef := nat.

(** Exported data is [unknown] to the orchestrator: an opaque token. *)
Definition Data := nat.

(** [IMigrationTool.acceptedMigration]; the sequence number is only passed
    through to [loadExistingPaused]. *)
Record AcceptedMigration := {
  newVersion : string;
  migrationSequenceNumber : Z
}.

(** What can be read synchronously from one migration tool at one instant. *)
Module Tool.
Record View := {
  migrationState : string;
  connected : bool;
  acceptedMigration : option AcceptedMigration;
  newContainerId : option string;
  haveMigrationTask : bool
}.
End Tool.

(** [IDetachedMigratableModel]: the detached successor and its model. *)
Module Detached.
Record t := {
  model : ModelRef;
  handle : nat
}.
End Detached.

(** The external objects as the orchestrator can read them at one instant:
    the migration tools, and the synchronous queries on models
    ([supportsDataFormat], [version]). *)
Record World := {
  tool : ToolRef -> Tool.View;
  supportsDataFormat : ModelRef -> Data -> bool;
  version : ModelRef -> string
}.

(** [interface MigratableParts] (lines 25-29). *)
Record MigratableParts := {
  model : ModelRef;
  migrationTool : ToolRef;
  id : string
}.

(** A pending promise of the orchestrator's own; only its presence is ever
    tested. *)
Inductive Promise := Pending.

(** The fields of [class Migrator] (lines 37, 67, 73, 78, 84, 91). *)
Record Migrator := {
  _currentMigratable : MigratableParts;
  dataTransformationCallback : option CallbackRef;
  _migrationP : option Promise;
  _migratedLoadP : option Promise;
  _preparedDetachedModel : option Detached.t;
  _preparedModelId : option string
}.

Definition set_currentMigratable (p : MigratableParts) (m : Migrator) : Migrator :=
  {| _currentMigratable := p;
     dataTransformationCallback := dataTransformationCallback m;
     _migrationP := _migrationP m;
     _migratedLoadP := _migratedLoadP m;
     _preparedDetachedModel := _preparedDetachedModel m;
     _preparedModelId := _preparedModelId m |}.

Definition set_migrationP (p : option Promise) (m : Migrator) : Migrator :=
  {| _currentMigratable := _currentMigratable m;
     dataTransformationCallback := dataTransformationCallback m;
     _migrationP := p;
     _migratedLoadP := _migratedLoadP m;
     _preparedDetachedModel := _preparedDetachedModel m;
     _preparedModelId := _preparedModelId m |}.

Definition set_migratedLoadP (p : option Promise) (m : Migrator) : Migrator :=
  {| _currentMigratable := _currentMigratable m;
     dataTransformationCallback := dataTransformationCallback m;
     _migrationP := _migrationP m;
     _migratedLoadP := p;
     _preparedDetachedModel := _preparedDetachedModel m;
     _preparedModelId := _preparedModelId m |}.

Definition set_preparedDetachedModel (d : option Detached.t) (m : Migrator) : Migrator :=
  {| _currentMigratable := _currentMigratable m;
     dataTransformationCallback := dataTransformationCallback m;
     _migrationP := _migrationP m;
     _migratedLoadP := _migratedLoadP m;
     _preparedDetachedModel := d;
     _preparedModelId := _preparedModelId m |}.

Definition set_preparedModelId (i : option string) (m : Migrator) : Migrator :=
  {| _currentMigratable := _currentMigratable m;
     dataTransformationCallback := dataTransformationCallback m;
     _migrationP := _migrationP m;
     _migratedLoadP := _migratedLoadP m;
     _preparedDetachedModel := _preparedDetachedModel m;
     _preparedModelId := i |}.

(** The accessors (lines 38-56). *)
Definition currentModel (m : Migrator) : ModelRef := model (_currentMigratable m).
Definition currentMigrationTool (m : Migrator) : ToolRef := migrationTool (_currentMigratable m).
Definition currentModelId (m : Migrator) : string := id (_currentMigratable m).
Definition migrationState (w : World) (m : Migrator) : string :=
  Tool.migrationState (tool w (currentMigrationTool m)).
Definition connected (w : World) (m : Migrator) : bool :=
  Tool.connected (tool w (currentMigrationTool m)).

(** ** Output trace *)

Inductive Action :=
  (* this._events.emit(...) *)
  | Emit_migrating
  | Emit_migrationNotSupported (v : string)
  | Emit_migrated (mo : ModelRef) (i : string)
  (* tool.events.once(ev, this.takeAppropriateActionForCurrentMigratable) *)
  | Once (t : ToolRef) (ev : string)
  (* model loader *)
  | Call_supportsVersion (v : string)
  | Call_createDetached (v : string)
  | Call_loadExistingPaused (i : string) (seq : Z)
  | Call_loadExisting (i : string)
  (* models *)
  | Call_exportData (mo : ModelRef)
  | Call_dispose (mo : ModelRef)
  | Call_supportsDataFormat (mo : ModelRef) (d : Data)
  | Call_importData (mo : ModelRef) (d : Data)
  | Call_attach (d : Detached.t)
  (* data transformation callback *)
  | Call_dataTransformationCallback (cb : CallbackRef) (d : Data) (v : string)
  (* migration tool *)
  | Call_volunteerForMigration (t : ToolRef)
  | Call_haveMigrationTask (t : ToolRef)
  | Call_finalizeMigration (t : ToolRef) (i : string)
  | Call_completeMigrationTask (t : ToolRef)
  (* .catch(console.error) consuming a rejection *)
  | Console_error
  (* bookkeeping entry: takeAppropriateActionForCurrentMigratable was entered *)
  | Enter_takeAppropriateActionForCurrentMigratable.

Inductive Error :=
  | Error_ (msg : string)           (* throw new Error(msg) *)
  | AssertionError (msg : string)   (* assert(false, msg) *)
  | TypeError                       (* method call on undefined *)
  | Rejection.                      (* reason of a rejected awaited promise *)

(** ** Program points *)

(** The suspension points of [doTheMigration] and its [.then] callback. *)
Inductive MigrationPC :=
  | At_supportsVersion                                   (* line 162 *)
  | At_createDetached                                    (* line 171 *)
  | At_loadExistingPaused (detachedModel : Detached.t)   (* line 184 *)
  | At_exportData (detachedModel : Detached.t) (exportModel : ModelRef) (* line 188 *)
  | At_dataTransformationCallback (detachedModel : Detached.t) (* line 204 *)
  | At_importData (detachedModel : Detached.t)           (* line 221 *)
  | At_prepareTheMigration                               (* line 270, prepare has returned *)
  | At_volunteerForMigration                             (* line 236 *)
  | At_attach                                            (* line 254 *)
  | At_finalizeMigration                                 (* line 263 *)
  | At_then.                                             (* line 284, doTheMigration() has resolved *)

(** The suspension points of [doTheLoad]. *)
Inductive LoadPC :=
  | At_load_supportsVersion                              (* line 326 *)
  | At_loadExisting.                                     (* line 335 *)

(** A suspended attempt with the constants its closure captured. *)
Inductive Task :=
  | MigrationTask (migrationTool : ToolRef) (acceptedMigration : AcceptedMigration)
                  (pc : MigrationPC)
  | LoadTask (acceptedMigration : AcceptedMigration) (migratedId : string) (pc : LoadPC).

(** How an awaited promise settles. *)
Inductive Outcome (A : Type) :=
  | Resolved (a : A)
  | Rejected.
Arguments Resolved {A} a.
Arguments Rejected {A}.

Inductive Settlement :=
  | Settle_bool (o : Outcome bool)                 (* supportsVersion, volunteerForMigration *)
  | Settle_detached (o : Outcome Detached.t)       (* createDetached *)
  | Settle_paused (o : Outcome ModelRef)           (* loadExistingPaused: { model } *)
  | Settle_data (o : Outcome Data)                 (* exportData, dataTransformationCallback *)
  | Settle_void (o : Outcome unit)                 (* importData, finalizeMigration *)
  | Settle_id (o : Outcome string)                 (* attach *)
  | Settle_loaded (o : Outcome (ModelRef * ToolRef)) (* loadExisting: { model, migrationTool } *)
  | Tick.                                          (* a promise of the orchestrator's own *)

(** How a synchronous stretch of an async function ends. *)
Inductive Completion :=
  | Await (pc : MigrationPC)
  | Return
  | Throw (e : Error).

Definition Segment := (Migrator * list Action * Completion)%type.

(** The effect of a synchronous call chain: the new fields, the trace, the
    attempt it left suspended, and the error it threw to its caller. *)
Record Effect := {
  eff_m : Migrator;
  eff_out : list Action;
  eff_task : option Task;
  eff_thrown : option Error
}.

Definition done (m : Migrator) (out : list Action) (t : option Task) : Effect :=
  {| eff_m := m; eff_out := out; eff_task := t; eff_thrown := None |}.

Definition throw (m : Migrator) (e : Error) : Effect :=
  {| eff_m := m; eff_out := []; eff_task := None; eff_thrown := Some e |}.

Definition isSome {A} (o : option A) : bool :=
  match o with Some _ => true | None => false end.

(** ** The migration attempt ([doTheMigration], lines 149-279) *)

(** [prepareTheMigration()] up to its first await (line 162). *)
Definition prepareTheMigration (acceptedMigration : AcceptedMigration) (m : Migrator)
  : Segment :=
  (m, [Call_supportsVersion (newVersion acceptedMigration)], Await At_supportsVersion).

(** [completeTheMigration()] up to its first await (lines 228-236). *)
Definition completeTheMigration (m : Migrator) : Segment :=
  match _preparedDetachedModel m with
  | None => (m, [], Throw (AssertionError "this._preparedDetachedModel should be defined"))
  | Some _ =>
      (m, [Call_volunteerForMigration (currentMigrationTool m)], Await At_volunteerForMigration)
  end.

(** [doTheMigration] after the prepare step (lines 273-278). *)
Definition afterPrepare (w : World) (m : Migrator) : Segment :=
  if negb (migrationState w m =? "migrating") then (m, [], Return)
  else completeTheMigration m.

(** [doTheMigration()] up to its first await (lines 268-278). *)
Definition doTheMigration (w : World) (acceptedMigration : AcceptedMigration) (m : Migrator)
  : Segment :=
  match _preparedDetachedModel m with
  | None => prepareTheMigration acceptedMigration m
  | Some _ => afterPrepare w m
  end.

(** [completeTheMigration] from the task re-check to the finalize call
    (lines 257-263); [preparedModelId] is [this._preparedModelId], defined
    at this point. *)
Definition finishTheMigration (w : World) (migrationTool : ToolRef) (preparedModelId : string)
    (m : Migrator) : Segment :=
  if negb (Tool.haveMigrationTask (tool w (currentMigrationTool m))) then
    (m, [Call_haveMigrationTask (currentMigrationTool m)], Return)
  else
    (m, [Call_haveMigrationTask (currentMigrationTool m);
         Call_finalizeMigration migrationTool preparedModelId],
     Await At_finalizeMigration).

(** [prepareTheMigration] from the exported data on (lines 189-221). *)
Definition transformAndImport (w : World) (acceptedMigration : AcceptedMigration)
    (detachedModel : Detached.t) (exportModel : ModelRef) (exportedData : Data)
    (m : Migrator) : Segment :=
  let migratedModel := Detached.model detachedModel in
  if supportsDataFormat w migratedModel exportedData then
    (m, [Call_dispose exportModel;
         Call_supportsDataFormat migratedModel exportedData;
         Call_importData migratedModel exportedData],
     Await (At_importData detachedModel))
  else
    match dataTransformationCallback m with
    | Some cb =>
        (m, [Call_dispose exportModel;
             Call_supportsDataFormat migratedModel exportedData;
             Call_dataTransformationCallback cb exportedData (version w migratedModel)],
         Await (At_dataTransformationCallback detachedModel))
    | None =>
        (set_migrationP None m,
         [Call_dispose exportModel;
          Call_supportsDataFormat migratedModel exportedData;
          Emit_migrationNotSupported (newVersion acceptedMigration)],
         Await At_prepareTheMigration)
    end.

(** The synchronous stretch that follows each await of [doTheMigration],
    given how the awaited promise settled.  [None]: the settlement is not one
    of the awaited call.  [At_then] is resumed by [thenCallback]. *)
Definition resumeMigration (w : World) (migrationTool : ToolRef)
    (acceptedMigration : AcceptedMigration) (pc : MigrationPC) (s : Settlement)
    (m : Migrator) : option Segment :=
  match pc, s with
  (* lines 162-173 *)
  | At_supportsVersion, Settle_bool (Resolved migrationSupported) =>
      if negb migrationSupported then
        Some (set_migrationP None m,
              [Emit_migrationNotSupported (newVersion acceptedMigration)],
              Await At_prepareTheMigration)
      else
        Some (m, [Call_createDetached (newVersion acceptedMigration)], Await At_createDetached)
  | At_supportsVersion, Settle_bool Rejected => Some (m, [], Throw Rejection)
  (* lines 171-187 *)
  | At_createDetached, Settle_detached (Resolved detachedModel) =>
      Some (m, [Call_loadExistingPaused (currentModelId m)
                  (migrationSequenceNumber acceptedMigration)],
            Await (At_loadExistingPaused detachedModel))
  | At_createDetached, Settle_detached Rejected => Some (m, [], Throw Rejection)
  (* lines 184-188 *)
  | At_loadExistingPaused detachedModel, Settle_paused (Resolved exportModel) =>
      Some (m, [Call_exportData exportModel], Await (At_exportData detachedModel exportModel))
  | At_loadExistingPaused _, Settle_paused Rejected => Some (m, [], Throw Rejection)
  (* lines 188-221 *)
  | At_exportData detachedModel exportModel, Settle_data (Resolved exportedData) =>
      Some (transformAndImport w acceptedMigration detachedModel exportModel exportedData m)
  | At_exportData _ _, Settle_data Rejected => Some (m, [], Throw Rejection)
  (* lines 204-221 *)
  | At_dataTransformationCallback detachedModel, Settle_data (Resolved transformedData) =>
      Some (m, [Call_importData (Detached.model detachedModel) transformedData],
            Await (At_importData detachedModel))
  | At_dataTransformationCallback _, Settle_data Rejected =>
      Some (set_migrationP None m,
            [Emit_migrationNotSupported (newVersion acceptedMigration)],
            Await At_prepareTheMigration)
  (* lines 221-225 *)
  | At_importData detachedModel, Settle_void (Resolved _) =>
      Some (set_preparedDetachedModel (Some detachedModel) m, [], Await At_prepareTheMigration)
  | At_importData _, Settle_void Rejected => Some (m, [], Throw Rejection)
  (* lines 270-278 *)
  | At_prepareTheMigration, Tick => Some (afterPrepare w m)
  (* lines 236-263 *)
  | At_volunteerForMigration, Settle_bool Rejected =>
      if negb (connected w m) then Some (m, [], Return)
      else Some (m, [], Throw (AssertionError "We should be disconnected"))
  | At_volunteerForMigration, Settle_bool (Resolved isAssigned) =>
      if isSome (Tool.newContainerId (tool w (currentMigrationTool m))) then
        Some (m, [], Return)
      else if negb isAssigned then
        Some (m, [], Throw (AssertionError "We should be assigned the migration task"))
      else
        match _preparedModelId m with
        | None =>
            match _preparedDetachedModel m with
            | Some detachedModel => Some (m, [Call_attach detachedModel], Await At_attach)
            | None => Some (m, [], Throw TypeError)
            end
        | Some preparedModelId => Some (finishTheMigration w migrationTool preparedModelId m)
        end
  (* lines 254-263 *)
  | At_attach, Settle_id (Resolved preparedModelId) =>
      Some (finishTheMigration w migrationTool preparedModelId
              (set_preparedModelId (Some preparedModelId) m))
  | At_attach, Settle_id Rejected => Some (m, [], Throw Rejection)
  (* lines 263-266 *)
  | At_finalizeMigration, Settle_void (Resolved _) =>
      Some (m, [Call_completeMigrationTask (currentMigrationTool m)], Return)
  | At_finalizeMigration, Settle_void Rejected => Some (m, [], Throw Rejection)
  | _, _ => None
  end.

(** Where a stretch of [doTheMigration] leaves the attempt: suspended at the
    next await, resolved (the [.then] callback is pending), or rejected (the
    rejection goes to [.catch(console.error)], line 298). *)
Definition settleSegment (migrationTool : ToolRef) (acceptedMigration : AcceptedMigration)
    (seg : Segment) : Effect :=
  let '(m, out, c) := seg in
  match c with
  | Await pc => done m out (Some (MigrationTask migrationTool acceptedMigration pc))
  | Return => done m out (Some (MigrationTask migrationTool acceptedMigration At_then))
  | Throw _ => done m (out ++ [Console_error]) None
  end.

(** ** The entry points (lines 107-147, 281-283, 301-321, 356) *)

Definition ensureMigrating (w : World) (m : Migrator) : Effect :=
  if negb (connected w m) then
    done m [Once (currentMigrationTool m) "connected"] None
  else if isSome (_migrationP m) then
    done m [] None
  else if isSome (_migratedLoadP m) then
    throw m (Error_ "Cannot perform migration, we are currently trying to load")
  else
    let migrationTool := currentMigrationTool m in
    match Tool.acceptedMigration (tool w migrationTool) with
    | None => throw m (Error_ "Expect an accepted migration before migration starts")
    | Some acceptedMigration =>
        let e := settleSegment migrationTool acceptedMigration
                   (doTheMigration w acceptedMigration m) in
        done (set_migrationP (Some Pending) (eff_m e))
             (Emit_migrating :: eff_out e) (eff_task e)
    end.

(** [doTheLoad()] up to its first await (line 326). *)
Definition doTheLoad (acceptedMigration : AcceptedMigration) (migratedId : string)
    (m : Migrator) : Effect :=
  done m [Call_supportsVersion (newVersion acceptedMigration)]
       (Some (LoadTask acceptedMigration migratedId At_load_supportsVersion)).

Definition ensureLoading (w : World) (m : Migrator) : Effect :=
  if isSome (_migratedLoadP m) then
    done m [] None
  else if isSome (_migrationP m) then
    throw m (Error_ "Cannot start loading the migrated before migration is complete")
  else
    let migrationTool := currentMigrationTool m in
    match Tool.acceptedMigration (tool w migrationTool) with
    | None => throw m (Error_ "Expect an accepted version before migration starts")
    | Some acceptedMigration =>
        match Tool.newContainerId (tool w migrationTool) with
        | None => throw m (Error_ "Migration ended without a new container being created")
        | Some migratedId =>
            let e := doTheLoad acceptedMigration migratedId m in
            done (set_migratedLoadP (Some Pending) (eff_m e)) (eff_out e) (eff_task e)
        end
    end.

(** Prefix the trace of an effect. *)
Definition after (pre : list Action) (e : Effect) : Effect :=
  {| eff_m := eff_m e; eff_out := pre ++ eff_out e;
     eff_task := eff_task e; eff_thrown := eff_thrown e |}.

(** The dispatcher (lines 107-119). *)
Definition takeAppropriateActionForCurrentMigratable (w : World) (m : Migrator) : Effect :=
  after [Enter_takeAppropriateActionForCurrentMigratable]
    (let migrationState := Tool.migrationState (tool w (currentMigrationTool m)) in
     if migrationState =? "migrating" then ensureMigrating w m
     else if migrationState =? "migrated" then ensureLoading w m
     else done m [Once (currentMigrationTool m) "migrating"] None).

(** An error thrown inside a promise callback rejects the chained promise,
    which [.catch(console.error)] consumes. *)
Definition caught (e : Effect) : Effect :=
  match eff_thrown e with
  | Some _ => done (eff_m e) (eff_out e ++ [Console_error]) (eff_task e)
  | None => e
  end.

(** The [.then] callback of the migration attempt (lines 284-297). *)
Definition thenCallback (w : World) (m : Migrator) : Effect :=
  if connected w m && negb (isSome (Tool.newContainerId (tool w (currentMigrationTool m))))
  then caught (throw m (AssertionError "newContainerId should be defined"))
  else caught (takeAppropriateActionForCurrentMigratable w (set_migrationP None m)).

(** The synchronous stretch that follows each await of [doTheLoad]
    (lines 326-353); its rejection goes to [.catch(console.error)], line 356. *)
Definition resumeLoad (w : World) (acceptedMigration : AcceptedMigration)
    (migratedId : string) (pc : LoadPC) (s : Settlement) (m : Migrator) : option Effect :=
  match pc, s with
  | At_load_supportsVersion, Settle_bool (Resolved migrationSupported) =>
      if negb migrationSupported then
        Some (done (set_migratedLoadP None m)
                   [Emit_migrationNotSupported (newVersion acceptedMigration)] None)
      else
        Some (done m [Call_loadExisting migratedId]
                   (Some (LoadTask acceptedMigration migratedId At_loadExisting)))
  | At_load_supportsVersion, Settle_bool Rejected => Some (caught (throw m Rejection))
  | At_loadExisting, Settle_loaded (Resolved (migratedModel, migratedMigrationTool)) =>
      let m1 := set_currentMigratable
                  {| model := migratedModel;
                     migrationTool := migratedMigrationTool;
                     id := migratedId |} m in
      let m2 := set_migratedLoadP None m1 in
      let m3 := set_preparedDetachedModel None m2 in
      let m4 := set_preparedModelId None m3 in
      Some (caught (after [Emit_migrated migratedModel migratedId]
                      (takeAppropriateActionForCurrentMigratable w m4)))
  | At_loadExisting, Settle_loaded Rejected => Some (caught (throw m Rejection))
  | _, _ => None
  end.

(** Resuming a suspended attempt. *)
Definition resumeTask (w : World) (t : Task) (s : Settlement) (m : Migrator)
  : option Effect :=
  match t with
  | MigrationTask migrationTool acceptedMigration At_then =>
      match s with
      | Tick => Some (thenCallback w m)
      | _ => None
      end
  | MigrationTask migrationTool acceptedMigration pc =>
      option_map (settleSegment migrationTool acceptedMigration)
                 (resumeMigration w migrationTool acceptedMigration pc s m)
  | LoadTask acceptedMigration migratedId pc =>
      resumeLoad w acceptedMigration migratedId pc s m
  end.

(** ** The orchestrator and its surroundings as one machine *)

(** A one-time listener [takeAppropriateActionForCurrentMigratable] that the
    orchestrator registered on a tool for an event. *)
Definition Listener := (ToolRef * string)%type.

Record Machine := {
  migrator : Migrator;
  listeners : list Listener;
  tasks : list Task
}.

(** What the surroundings can do to the orchestrator: fire a registered
    one-time listener, or settle the promise a suspended attempt awaits. *)
Inductive Input :=
  | Fire (i : nat)
  | Settle (i : nat) (s : Settlement).

Fixpoint remove_nth {A} (i : nat) (l : list A) : list A :=
  match l, i with
  | [], _ => []
  | _ :: l', O => l'
  | x :: l', S i' => x :: remove_nth i' l'
  end.

(** The listeners a trace registers. *)
Fixpoint registered (out : list Action) : list Listener :=
  match out with
  | [] => []
  | Once t ev :: out' => (t, ev) :: registered out'
  | _ :: out' => registered out'
  end.

Definition option_list {A} (o : option A) : list A :=
  match o with Some a => [a] | None => [] end.

(** The result of one step: the next machine, the trace of the step, and
    the error thrown back into the tool's event emitter, if any. *)
Definition StepResult := (Machine * list Action * option Error)%type.

Definition install (ls : list Listener) (ts : list Task) (e : Effect) : StepResult :=
  ({| migrator := eff_m e;
      listeners := ls ++ registered (eff_out e);
      tasks := ts ++ option_list (eff_task e) |},
   eff_out e, eff_thrown e).

(** One step; [None] when the input is not enabled. *)
Definition step (w : World) (i : Input) (M : Machine) : option StepResult :=
  match i with
  | Fire n =>
      match nth_error (listeners M) n with
      | Some _ =>
          Some (install (remove_nth n (listeners M)) (tasks M)
                  (takeAppropriateActionForCurrentMigratable w (migrator M)))
      | None => None
      end
  | Settle n s =>
      match nth_error (tasks M) n with
      | Some t =>
          option_map (install (listeners M) (remove_nth n (tasks M)))
                     (resumeTask w t s (migrator M))
      | None => None
      end
  end.

(** The constructor (lines 86-99). *)
Definition construct (w : World) (initialMigratable : ModelRef) (initialMigrationTool : ToolRef)
    (initialId : string) (dataTransformationCallback : option CallbackRef) : StepResult :=
  install [] []
    (takeAppropriateActionForCurrentMigratable w
       {| _currentMigratable :=
            {| model := initialMigratable;
               migrationTool := initialMigrationTool;
               id := initialId |};
          dataTransformationCallback := dataTransformationCallback;
          _migrationP := None;
          _migratedLoadP := None;
          _preparedDetachedModel := None;
          _preparedModelId := None |}).

(** A run: the steps taken one after the other, each in the world of its
    instant; the traces are concatenated. *)
Fixpoint run (script : list (World * Input)) (M : Machine) : option (Machine * list Action) :=
  match script with
  | [] => Some (M, [])
  | (w, i) :: script' =>
      match step w i M with
      | Some (M1, out1, _) =>
          match run script' M1 with
          | Some (M2, out2) => Some (M2, out1 ++ out2)
          | None => None
          end
      | None => None
      end
  end.

(** The machines the orchestrator can be in: right after construction, and
    after any enabled step from there. *)
Inductive reachable : Machine -> Prop :=
  | reachable_construct w mo t i cb M out err :
      construct w mo t i cb = (M, out, err) ->
      reachable M
  | reachable_step w i M M' out err :
      reachable M ->
      step w i M = Some (M', out, err) ->
      reachable M'.

(** ** One migration attempt, start to end *)

(** A migration attempt driven through the settlements of a script, each in
    the world of its instant, until [doTheMigration] returns or throws, or
    the script ends, or offers a settlement that is not the awaited one (the
    attempt is then still suspended). *)
Fixpoint runMigration (migrationTool : ToolRef) (acceptedMigration : AcceptedMigration)
    (script : list (World * Settlement)) (pc : MigrationPC) (m : Migrator) : Segment :=
  match script with
  | [] => (m, [], Await pc)
  | (w, s) :: script' =>
      match resumeMigration w migrationTool acceptedMigration pc s m with
      | Some (m1, out1, Await pc1) =>
          let '(m2, out2, c) :=
            runMigration migrationTool acceptedMigration script' pc1 m1 in
          (m2, out1 ++ out2, c)
      | Some seg => seg
      | None => (m, [], Await pc)
      end
  end.

(** The finalize phase on its own: [completeTheMigration()] and what
    follows its awaits. *)
Definition finalizePhase (migrationTool : ToolRef) (acceptedMigration : AcceptedMigration)
    (script : list (World * Settlement)) (m : Migrator) : Segment :=
  match completeTheMigration m with
  | (m0, out0, Await pc) =>
      let '(m1, out1, c) := runMigration migrationTool acceptedMigration script pc m0 in
      (m1, out0 ++ out1, c)
  | seg => seg
  end.

(** A whole attempt: [ensureMigrating] and, when it started an attempt, what
    follows the awaits of that attempt. *)
Definition attempt (w0 : World) (script : list (World * Settlement)) (m : Migrator)
  : Segment :=
  let e := ensureMigrating w0 m in
  match eff_task e with
  | Some (MigrationTask migrationTool acceptedMigration pc) =>
      let '(m1, out1, c) :=
        runMigration migrationTool acceptedMigration script pc (eff_m e) in
      (m1, eff_out e ++ out1, c)
  | _ => (eff_m e, eff_out e, Return)
  end.

(** The conditions under which the finalize phase reaches
    [finalizeMigration(i)], in the words of the specification: a prepared
    model exists; the volunteer call resolved, and granted the task; the tool
    had no new container id then; the prepared model had been attached in an
    earlier partial attempt, or [attach] resolved now, with id [i]; and the
    tool still reported the task afterwards.  [rest] is what the script
    holds after the settlements these conditions consumed. *)
Definition finalize_conditions (m : Migrator) (script : list (World * Settlement))
    (i : string) (rest : list (World * Settlement)) : Prop :=
  exists w1,
    _preparedDetachedModel m <> None /\
    Tool.newContainerId (tool w1 (currentMigrationTool m)) = None /\
    ((_preparedModelId m = Some i /\
      script = (w1, Settle_bool (Resolved true)) :: rest /\
      Tool.haveMigrationTask (tool w1 (currentMigrationTool m)) = true)
     \/
     (_preparedModelId m = None /\
      exists w2,
        script = (w1, Settle_bool (Resolved true)) :: (w2, Settle_id (Resolved i)) :: rest /\
        Tool.haveMigrationTask (tool w2 (currentMigrationTool m)) = true)).

(** ** Observations on traces *)



(** The parts of a segment. *)
Definition fields_of (seg : Segment) : Migrator := fst (fst seg).
Definition trace_of (seg : Segment) : list Action := snd (fst seg).
Definition end_of (seg : Segment) : Completion := snd seg.

(** The [migrationNotSupported] notifications of a trace. *)
Definition is_migrationNotSupported (a : Action) : bool :=
  match a with
  | Emit_migrationNotSupported _ => true
  | _ => false
  end.

(** ** What holds of every machine the orchestrator can be in *)

(** What a suspended attempt can rely on, by its program point. *)
Definition task_inv (m : Migrator) (t : Task) : Prop :=
  match t with
  | MigrationTask _ _ pc =>
      _migratedLoadP m = None /\
      match pc with
      | At_supportsVersion | At_createDetached | At_loadExistingPaused _
      | At_exportData _ _ | At_dataTransformationCallback _ | At_importData _ =>
          _migrationP m = Some Pending /\ _preparedDetachedModel m = None
      | At_prepareTheMigration =>
          (_migrationP m = Some Pending /\ _preparedDetachedModel m <> None) \/
          (_migrationP m = None /\ _preparedDetachedModel m = None)
      | At_volunteerForMigration =>
          _migrationP m = Some Pending /\ _preparedDetachedModel m <> None
      | At_attach =>
          _migrationP m = Some Pending /\ _preparedDetachedModel m <> None /\
          _preparedModelId m = None
      | At_finalizeMigration =>
          _migrationP m = Some Pending /\ _preparedDetachedModel m <> None /\
          _preparedModelId m <> None
      | At_then => True
      end
  | LoadTask _ _ _ =>
      _migrationP m = None /\ _migratedLoadP m = Some Pending
  end.

(** At any instant the orchestrator has at most one thing pending: one
    registered listener, or one suspended attempt; and a prepared model id
    is only held together with a prepared model. *)
Definition machine_inv (M : Machine) : Prop :=
  (_preparedModelId (migrator M) <> None -> _preparedDetachedModel (migrator M) <> None) /\
  match tasks M, listeners M with
  | [], [] => True
  | [], [_] => _migrationP (migrator M) = None /\ _migratedLoadP (migrator M) = None
  | [t], [] => task_inv (migrator M) t
  | _, _ => False
  end.

(** The ways an invocation of the dispatcher can go. *)
Inductive dispatched (w : World) (m : Migrator) : Effect -> Prop :=
  | dispatched_listen ev :
      dispatched w m
        (done m [Enter_takeAppropriateActionForCurrentMigratable;
                 Once (currentMigrationTool m) ev] None)
  | dispatched_in_flight :
      _migrationP m <> None \/ _migratedLoadP m <> None ->
      dispatched w m (done m [Enter_takeAppropriateActionForCurrentMigratable] None)
  | dispatched_throw e :
      dispatched w m
        {| eff_m := m; eff_out := [Enter_takeAppropriateActionForCurrentMigratable];
           eff_task := None; eff_thrown := Some e |}
  | dispatched_prepare am :
      _migrationP m = None -> _migratedLoadP m = None ->
      _preparedDetachedModel m = None ->
      dispatched w m
        (done (set_migrationP (Some Pending) m)
              [Enter_takeAppropriateActionForCurrentMigratable; Emit_migrating;
               Call_supportsVersion (newVersion am)]
              (Some (MigrationTask (currentMigrationTool m) am At_supportsVersion)))
  | dispatched_finalize am :
      _migrationP m = None -> _migratedLoadP m = None ->
      _preparedDetachedModel m <> None ->
      dispatched w m
        (done (set_migrationP (Some Pending) m)
              [Enter_takeAppropriateActionForCurrentMigratable; Emit_migrating;
               Call_volunteerForMigration (currentMigrationTool m)]
              (Some (MigrationTask (currentMigrationTool m) am At_volunteerForMigration)))
  | dispatched_load am i :
      _migrationP m = None -> _migratedLoadP m = None ->
      dispatched w m
        (done (set_migratedLoadP (Some Pending) m)
              [Enter_takeAppropriateActionForCurrentMigratable;
               Call_supportsVersion (newVersion am)]
              (Some (LoadTask am i At_load_supportsVersion))).

(** ** Sessions *)

(** The session that an input installs as current: the settlement of the
    [loadExisting(migratedId)] that a load awaits, resolved with a model and
    its migration tool. *)
Definition swapped (i : Input) (M : Machine) : option MigratableParts :=
  match i with
  | Settle n (Settle_loaded (Resolved (migratedModel, migratedMigrationTool))) =>
      match nth_error (tasks M) n with
      | Some (LoadTask _ migratedId At_loadExisting) =>
          Some {| model := migratedModel;
                  migrationTool := migratedMigrationTool;
                  id := migratedId |}
      | _ => None
      end
  | _ => None
  end.

(** The sessions loaded in the course of a run, in order. *)
Fixpoint sessions (script : list (World * Input)) (M : Machine) : list MigratableParts :=
  match script with
  | [] => []
  | (w, i) :: script' =>
      match step w i M with
      | Some (M1, _, _) => option_list (swapped i M) ++ sessions script' M1
      | None => []
      end
  end.

(** The [dispose()] calls of a trace. *)
Definition is_dispose (a : Action) : bool :=
  match a with
  | Call_dispose _ => true
  | _ => false
  end.

(** The calls of the prepare phase that follow its version check, the
    [attach()] calls, and the [migrated] notifications of a trace. *)
Definition is_prepare_call (a : Action) : bool :=
  match a with
  | Call_createDetached _ | Call_loadExistingPaused _ _ | Call_exportData _
  | Call_dispose _ | Call_supportsDataFormat _ _
  | Call_dataTransformationCallback _ _ _ | Call_importData _ _ => true
  | _ => false
  end.

Definition is_attach (a : Action) : bool :=
  match a with
  | Call_attach _ => true
  | _ => false
  end.

Definition is_migrated (a : Action) : bool :=
  match a with
  | Emit_migrated _ _ => true
  | _ => false
  end.

(** In a trace, every [dispose()] comes directly after the [exportData()]
    on the same model. *)
Definition dispose_follows_exportData (tr : list Action) : Prop :=
  forall pre x post,
    tr = pre ++ Call_dispose x :: post ->
    exists pre', pre = pre' ++ [Call_exportData x].

(** A trace ends with the [exportData()] that the pending attempt awaits. *)
Definition exportData_pending (M : Machine) (tr : list Action) : Prop :=
  forall mt am d x,
    tasks M = [MigrationTask mt am (At_exportData d x)] ->
    exists pre, tr = pre ++ [Call_exportData x].

(** ** The steps of the machine, case by case *)

(** The machine that an effect leaves when nothing else is pending. *)
Definition settled (e : Effect) : Machine :=
  {| migrator := eff_m e;
     listeners := registered (eff_out e);
     tasks := option_list (eff_task e) |}.

(** The fields the load executor leaves when it installs a loaded session
    (lines 340-350). *)
Definition loaded (migratedModel : ModelRef) (migratedMigrationTool : ToolRef)
    (migratedId : string) (m : Migrator) : Migrator :=
  set_preparedModelId None
    (set_preparedDetachedModel None
       (set_migratedLoadP None
          (set_currentMigratable
             {| model := migratedModel;
                migrationTool := migratedMigrationTool;
                id := migratedId |} m))).

(** The ways a step of a machine with one thing pending can go: a listener
    fires; a stretch of the migration attempt runs; the [.then] callback
    fails its assertion, or invokes the dispatcher; the load executor gives
    up, goes on, is rejected, or installs the loaded session and invokes the
    dispatcher. *)
Inductive stepped (w : World) (M : Machine)
  : Input -> Machine -> list Action -> option Error -> Prop :=
  | stepped_fire l e :
      listeners M = [l] -> tasks M = [] ->
      _migrationP (migrator M) = None -> _migratedLoadP (migrator M) = None ->
      e = takeAppropriateActionForCurrentMigratable w (migrator M) ->
      dispatched w (migrator M) e ->
      stepped w M (Fire 0) (settled e) (eff_out e) (eff_thrown e)
  | stepped_segment mt am pc s m1 out1 c :
      listeners M = [] -> tasks M = [MigrationTask mt am pc] ->
      task_inv (migrator M) (MigrationTask mt am pc) ->
      resumeMigration w mt am pc s (migrator M) = Some (m1, out1, c) ->
      stepped w M (Settle 0 s)
        (settled (settleSegment mt am (m1, out1, c)))
        (eff_out (settleSegment mt am (m1, out1, c))) None
  | stepped_then_assert mt am :
      listeners M = [] -> tasks M = [MigrationTask mt am At_then] ->
      _migratedLoadP (migrator M) = None ->
      connected w (migrator M) = true ->
      Tool.newContainerId (tool w (currentMigrationTool (migrator M))) = None ->
      stepped w M (Settle 0 Tick)
        {| migrator := migrator M; listeners := []; tasks := [] |}
        [Console_error] None
  | stepped_then mt am e :
      listeners M = [] -> tasks M = [MigrationTask mt am At_then] ->
      _migratedLoadP (migrator M) = None ->
      connected w (migrator M) = false \/
      Tool.newContainerId (tool w (currentMigrationTool (migrator M))) <> None ->
      e = takeAppropriateActionForCurrentMigratable w (set_migrationP None (migrator M)) ->
      dispatched w (set_migrationP None (migrator M)) e ->
      stepped w M (Settle 0 Tick) (settled e) (eff_out (caught e)) None
  | stepped_load_unsupported am mid :
      listeners M = [] -> tasks M = [LoadTask am mid At_load_supportsVersion] ->
      task_inv (migrator M) (LoadTask am mid At_load_supportsVersion) ->
      stepped w M (Settle 0 (Settle_bool (Resolved false)))
        {| migrator := set_migratedLoadP None (migrator M); listeners := []; tasks := [] |}
        [Emit_migrationNotSupported (newVersion am)] None
  | stepped_load_supported am mid :
      listeners M = [] -> tasks M = [LoadTask am mid At_load_supportsVersion] ->
      task_inv (migrator M) (LoadTask am mid At_load_supportsVersion) ->
      stepped w M (Settle 0 (Settle_bool (Resolved true)))
        {| migrator := migrator M; listeners := [];
           tasks := [LoadTask am mid At_loadExisting] |}
        [Call_loadExisting mid] None
  | stepped_load_rejected am mid pc s :
      listeners M = [] -> tasks M = [LoadTask am mid pc] ->
      task_inv (migrator M) (LoadTask am mid pc) ->
      (pc = At_load_supportsVersion /\ s = Settle_bool Rejected) \/
      (pc = At_loadExisting /\ s = Settle_loaded Rejected) ->
      stepped w M (Settle 0 s)
        {| migrator := migrator M; listeners := []; tasks := [] |}
        [Console_error] None
  | stepped_swap am mid mo t e :
      listeners M = [] -> tasks M = [LoadTask am mid At_loadExisting] ->
      task_inv (migrator M) (LoadTask am mid At_loadExisting) ->
      e = takeAppropriateActionForCurrentMigratable w (loaded mo t mid (migrator M)) ->
      dispatched w (loaded mo t mid (migrator M)) e ->
      stepped w M (Settle 0 (Settle_loaded (Resolved (mo, t)))) (settled e)
        (Emit_migrated mo mid :: eff_out (caught e)) None.

(** ** The tool an interaction is with *)

(** The migration tool that an action calls or listens on. *)
Definition tool_of (a : Action) : option ToolRef :=
  match a with
  | Once t _ | Call_volunteerForMigration t | Call_haveMigrationTask t
  | Call_finalizeMigration t _ | Call_completeMigrationTask t => Some t
  | _ => None
  end.

(** Every listener is on the current tool, for one of the two events the
    orchestrator listens to, and every suspended migration attempt captured
    the current tool. *)
Definition bound_to_current_tool (M : Machine) : Prop :=
  (forall t ev, In (t, ev) (listeners M) ->
     t = currentMigrationTool (migrator M) /\ (ev = "migrating" \/ ev = "connected")) /\
  (forall mt am pc, In (MigrationTask mt am pc) (tasks M) ->
     mt = currentMigrationTool (migrator M)).

(** ** The [migrated] notifications *)

(** The [migrated] notification that announces a session. *)
Definition announce (p : MigratableParts) : Action := Emit_migrated (model p) (id p).

(** ** The order of the calls *)

(** [allowed b a]: the action [a] may come directly after the action [b].
    Read off the source: each call is made right after the await of the
    call before it.  The entry of the dispatcher and [console.error] may
    come after anything. *)
Definition allowed (b a : Action) : Prop :=
  match a with
  | Emit_migrating => b = Enter_takeAppropriateActionForCurrentMigratable
  | Once _ _ => b = Enter_takeAppropriateActionForCurrentMigratable
  | Call_supportsVersion _ =>
      b = Emit_migrating \/ b = Enter_takeAppropriateActionForCurrentMigratable
  | Call_createDetached v => b = Call_supportsVersion v
  | Call_loadExistingPaused _ _ => exists v, b = Call_createDetached v
  | Call_exportData _ => exists i n, b = Call_loadExistingPaused i n
  | Call_dispose x => b = Call_exportData x
  | Call_supportsDataFormat _ _ => exists x, b = Call_dispose x
  | Call_dataTransformationCallback _ d _ => exists mo, b = Call_supportsDataFormat mo d
  | Call_importData mo d =>
      b = Call_supportsDataFormat mo d \/
      exists cb d' v, b = Call_dataTransformationCallback cb d' v
  | Emit_migrationNotSupported v =>
      b = Call_supportsVersion v \/
      (exists mo d, b = Call_supportsDataFormat mo d) \/
      (exists cb d v', b = Call_dataTransformationCallback cb d v')
  | Call_volunteerForMigration _ =>
      b = Emit_migrating \/ exists mo d, b = Call_importData mo d
  | Call_attach _ => exists t, b = Call_volunteerForMigration t
  | Call_haveMigrationTask t =>
      b = Call_volunteerForMigration t \/ exists d, b = Call_attach d
  | Call_finalizeMigration t _ => b = Call_haveMigrationTask t
  | Call_completeMigrationTask t => exists i, b = Call_finalizeMigration t i
  | Call_loadExisting _ => exists v, b = Call_supportsVersion v
  | Emit_migrated _ i => b = Call_loadExisting i
  | Console_error => True
  | Enter_takeAppropriateActionForCurrentMigratable => True
  end.

(** Every action of [out] is allowed after the one before it, the first
    one after [b]. *)
Fixpoint chain (b : Action) (out : list Action) : Prop :=
  match out with
  | [] => True
  | a :: out' => allowed b a /\ chain a out'
  end.

(** What the last action of the trace so far is, while an attempt is
    suspended at a program point: the call it awaits. *)
Definition task_expects (m : Migrator) (t : Task) (b : Action) : Prop :=
  match t with
  | MigrationTask mt am pc =>
      match pc with
      | At_supportsVersion => b = Call_supportsVersion (newVersion am)
      | At_createDetached => b = Call_createDetached (newVersion am)
      | At_loadExistingPaused _ => exists i n, b = Call_loadExistingPaused i n
      | At_exportData _ x => b = Call_exportData x
      | At_dataTransformationCallback _ => exists cb d v, b = Call_dataTransformationCallback cb d v
      | At_importData _ => exists mo d, b = Call_importData mo d
      | At_prepareTheMigration =>
          _preparedDetachedModel m <> None -> exists mo d, b = Call_importData mo d
      | At_volunteerForMigration => b = Call_volunteerForMigration mt
      | At_attach => exists d, b = Call_attach d
      | At_finalizeMigration => exists i, b = Call_finalizeMigration mt i
      | At_then => True
      end
  | LoadTask am i At_load_supportsVersion => b = Call_supportsVersion (newVersion am)
  | LoadTask am i At_loadExisting => b = Call_loadExisting i
  end.

Definition expects (M : Machine) (b : Action) : Prop :=
  forall t, tasks M = [t] -> task_expects (migrator M) t b.

(** ** Whole migrations *)

(** The inputs of a whole migration, from the listener that fires when the
    tool has turned to [migrating] to the load of the successor: every
    awaited call resolves.  [W k] is the world at the [k]-th input. *)
Definition whole_migration (W : nat -> World) (detachedModel : Detached.t)
    (exportModel : ModelRef) (exportedData : Data) (preparedModelId : string)
    (migratedModel : ModelRef) (migratedMigrationTool : ToolRef)
  : list (World * Input) :=
  [ (W 1, Fire 0);
    (W 2, Settle 0 (Settle_bool (Resolved true)));               (* supportsVersion *)
    (W 3, Settle 0 (Settle_detached (Resolved detachedModel)));  (* createDetached *)
    (W 4, Settle 0 (Settle_paused (Resolved exportModel)));      (* loadExistingPaused *)
    (W 5, Settle 0 (Settle_data (Resolved exportedData)));       (* exportData *)
    (W 6, Settle 0 (Settle_void (Resolved tt)));                 (* importData *)
    (W 7, Settle 0 Tick);                                        (* prepareTheMigration *)
    (W 8, Settle 0 (Settle_bool (Resolved true)));               (* volunteerForMigration *)
    (W 9, Settle 0 (Settle_id (Resolved preparedModelId)));      (* attach *)
    (W 10, Settle 0 (Settle_void (Resolved tt)));                (* finalizeMigration *)
    (W 11, Settle 0 Tick);                                       (* doTheMigration *)
    (W 12, Settle 0 (Settle_bool (Resolved true)));              (* supportsVersion *)
    (W 13, Settle 0 (Settle_loaded (Resolved (migratedModel, migratedMigrationTool)))) ].

(** ** Where the published container comes from *)

(** The ids that the [attach()] calls awaited in a script resolve with. *)
Fixpoint attach_results (script : list (World * Input)) : list string :=
  match script with
  | [] => []
  | (_, Settle _ (Settle_id (Resolved i))) :: script' => i :: attach_results script'
  | _ :: script' => attach_results script'
  end.

(** What the trace so far and the ids attached so far account for: the
    prepared successor has had data imported, the model an attempt is
    importing into has had the call made, the prepared id is one that
    [attach] resolved with. *)
Definition accounted (M : Machine) (h : list Action) (ids : list string) : Prop :=
  (forall d, _preparedDetachedModel (migrator M) = Some d ->
     exists x, In (Call_importData (Detached.model d) x) h) /\
  (forall mt am d, tasks M = [MigrationTask mt am (At_importData d)] ->
     exists x, In (Call_importData (Detached.model d) x) h) /\
  (forall i, _preparedModelId (migrator M) = Some i -> In i ids).

(** ** Errors thrown to the caller *)

(** The errors the entry points throw when the tool lacks what they read
    from it (lines 146, 315, 320). *)
Definition missing_data_error (e : Error) : Prop :=
  e = Error_ "Expect an accepted migration before migration starts" \/
  e = Error_ "Expect an accepted version before migration starts" \/
  e = Error_ "Migration ended without a new container being created".

(** ** One [attach()] per session *)

(** A monitor for the trace: [b] tells whether [attach()] has been called
    since the last [migrated] notification; a second call is a violation
    ([None]). *)
Fixpoint attach_once (b : bool) (tr : list Action) : option bool :=
  match tr with
  | [] => Some b
  | Emit_migrated _ _ :: tr' => attach_once false tr'
  | Call_attach _ :: tr' => if b then None else attach_once true tr'
  | _ :: tr' => attach_once b tr'
  end.

(** Where the orchestrator is once [attach()] has been called for the
    current session: awaiting it, or holding its id, or stopped. *)
Definition attach_called (M : Machine) : Prop :=
  _preparedModelId (migrator M) <> None \/
  (exists mt am, tasks M = [MigrationTask mt am At_attach]) \/
  (tasks M = [] /\ listeners M = []).

(** ** A worked session, for the examples below *)

Definition v2 : AcceptedMigration := {| newVersion := "v2"; migrationSequenceNumber := 7 |}.

Definition view (st : string) (c : bool) (am : option AcceptedMigration)
    (nid : option string) (task : bool) : Tool.View :=
  {| Tool.migrationState := st; Tool.connected := c; Tool.acceptedMigration := am;
     Tool.newContainerId := nid; Tool.haveMigrationTask := task |}.

(** A world in which every tool looks the same and the successor either
    accepts every export format or none. *)
Definition world (v : Tool.View) (native : bool) : World :=
  {| tool := fun _ => v; supportsDataFormat := fun _ _ => native; version := fun _ => "v2" |}.

Definition collaborating : World := world (view "collaborating" true None None false) true.
Definition migrating : World := world (view "migrating" true (Some v2) None true) true.
Definition migrating_foreign : World := world (view "migrating" true (Some v2) None true) false.
Definition migrating_offline : World := world (view "migrating" false (Some v2) None false) true.
Definition migrated : World := world (view "migrated" true (Some v2) (Some "new") false) true.

Definition detached1 : Detached.t := {| Detached.model := 11; Detached.handle := 1 |}.

(** The orchestrator at rest, with a load in flight, with a migration attempt
    in flight, and with a prepared successor cached. *)
Definition idle : Migrator :=
  {| _currentMigratable := {| model := 1; migrationTool := 0; id := "old" |};
     dataTransformationCallback := None;
     _migrationP := None; _migratedLoadP := None;
     _preparedDetachedModel := None; _preparedModelId := None |}.
Definition loading : Migrator := set_migratedLoadP (Some Pending) idle.
Definition attempting : Migrator := set_migrationP (Some Pending) idle.
Definition prepared : Migrator := set_preparedDetachedModel (Some detached1) attempting.

(** The orchestrator constructed on a tool that is still collaborating, and
    a whole migration seen from it: the tool turns to [migrating], the
    attempt prepares, finalizes, and the successor is loaded. *)
Definition started : Machine := fst (fst (construct collaborating 1 0 "old" None)).

Definition happy : list (World * Input) :=
  [ (migrating, Fire 0);
    (migrating, Settle 0 (Settle_bool (Resolved true)));
    (migrating, Settle 0 (Settle_detached (Resolved detached1)));
    (migrating, Settle 0 (Settle_paused (Resolved 5)));
    (migrating, Settle 0 (Settle_data (Resolved 42)));
    (migrating, Settle 0 (Settle_void (Resolved tt)));
    (migrating, Settle 0 Tick);
    (migrating, Settle 0 (Settle_bool (Resolved true)));
    (migrating, Settle 0 (Settle_id (Resolved "new")));
    (migrating, Settle 0 (Settle_void (Resolved tt)));
    (migrated, Settle 0 Tick);
    (migrated, Settle 0 (Settle_bool (Resolved true)));
    (collaborating, Settle 0 (Settle_loaded (Resolved (20, 21)))) ].


(** The machine once the successor is prepared (the first six steps of
    [happy]), and a disconnection and retry from there: the attempt
    volunteers, the call fails because the connection is lost, the attempt
    ends, the dispatcher waits for [connected], and is invoked again on
    reconnection. *)
Definition prepared_machine : Machine :=
  match run (firstn 6 happy) started with
  | Some (M, _) => M
  | None => started
  end.

Definition retry : list (World * Input) :=
  [ (migrating, Settle 0 Tick);
    (migrating_offline, Settle 0 (Settle_bool Rejected));
    (migrating_offline, Settle 0 Tick);
    (migrating, Fire 0) ].

(** The same start, with a successor that does not accept the exported
    format and no transform callback. *)
Definition no_transform : list (World * Input) :=
  [ (migrating_foreign, Fire 0);
    (migrating_foreign, Settle 0 (Settle_bool (Resolved true)));
    (migrating_foreign, Settle 0 (Settle_detached (Resolved detached1)));
    (migrating_foreign, Settle 0 (Settle_paused (Resolved 5)));
    (migrating_foreign, Settle 0 (Settle_data (Resolved 42))) ].

(** The machine while the attempt awaits [createDetached] (the first two
    steps of [happy]). *)
Definition creating_machine : Machine :=
  match run (firstn 2 happy) started with
  | Some (M, _) => M
  | None => started
  end.

(** The worlds of [happy] by the number of the input, the machine while the
    load awaits [loadExisting] (the first twelve steps of [happy]), and a
    tool that is [migrating] with no accepted migration. *)
Definition happy_worlds (k : nat) : World :=
  if Nat.leb k 10 then migrating
  else if Nat.leb k 12 then migrated
  else collaborating.

Definition loading_machine : Machine :=
  match run (firstn 12 happy) started with
  | Some (M, _) => M
  | None => started
  end.

Definition migrating_unaccepted : World :=
  world (view "migrating" true None None false) true.


Definition retry_worlds (k : nat) : World :=
  if Nat.leb k 2 then migrating_offline else migrating.


(** ** Proof tools *)

(** Case analysis on the next scrutinee of a hypothesis. *)
Ltac break_if :=
  match goal with
  | H : context [if ?b then _ else _] |- _ => destruct b eqn:?
  | H : context [match ?x with _ => _ end] |- _ => destruct x eqn:?
  end.

(** ** The entry points *)

(** C2. [ensureMigrating] throws synchronously exactly when it is called
    while connected, with no migration attempt in flight, and either a load
    is in flight or the tool has no accepted migration; [ensureLoading]
    throws synchronously exactly when it is called with no load in flight
    and either a migration attempt is in flight, or the tool has no accepted
    migration, or the tool has no new container id.  A call that throws has
    emitted nothing, changed no field and started no attempt. *)
Theorem entry_points_throw_exactly_on_protocol_violations (w : World) (m : Migrator) :
  let t := tool w (currentMigrationTool m) in
  (eff_thrown (ensureMigrating w m) <> None <->
     connected w m = true /\ _migrationP m = None /\
     (_migratedLoadP m <> None \/ Tool.acceptedMigration t = None))
  /\
  (eff_thrown (ensureLoading w m) <> None <->
     _migratedLoadP m = None /\
     (_migrationP m <> None \/ Tool.acceptedMigration t = None \/ Tool.newContainerId t = None))
  /\
  (eff_thrown (ensureMigrating w m) <> None ->
     ensureMigrating w m = throw m (match _migratedLoadP m with
       | Some _ => Error_ "Cannot perform migration, we are currently trying to load"
       | None => Error_ "Expect an accepted migration before migration starts" end))
  /\
  (eff_thrown (ensureLoading w m) <> None ->
     exists msg, ensureLoading w m = throw m (Error_ msg)).
Proof.
  unfold ensureMigrating, ensureLoading, connected. cbv zeta.
  destruct (Tool.connected _), (_migrationP m), (_migratedLoadP m),
    (Tool.acceptedMigration _), (Tool.newContainerId _); simpl;
    repeat split; intros; try tauto; try congruence; eauto;
    try (intuition congruence).
Qed.

Lemma entry_points_throw_witness :
  ensureMigrating migrating loading =
    throw loading (Error_ "Cannot perform migration, we are currently trying to load").
Proof.
  exact (proj1 (proj2 (proj2
           (entry_points_throw_exactly_on_protocol_violations migrating loading)))
         ltac:(vm_compute; discriminate)).
Defined.

(** ** The dispatcher *)

(** C4. Every invocation of the dispatcher reads the phase of the current
    tool and does exactly one thing: on [migrating] it is [ensureMigrating],
    on [migrated] it is [ensureLoading], and on any other phase it registers
    one one-time listener for the [migrating] event of the current tool and
    returns, with no field changed, no attempt started and nothing thrown;
    when a registered listener fires, it is removed and the dispatcher is
    invoked again, in the world of that instant. *)
Theorem dispatcher_maps_phase_to_one_action (w : World) (m : Migrator) :
  let phase := Tool.migrationState (tool w (currentMigrationTool m)) in
  let entered := [Enter_takeAppropriateActionForCurrentMigratable] in
  (phase = "migrating" ->
     takeAppropriateActionForCurrentMigratable w m = after entered (ensureMigrating w m))
  /\
  (phase = "migrated" ->
     takeAppropriateActionForCurrentMigratable w m = after entered (ensureLoading w m))
  /\
  (phase <> "migrating" -> phase <> "migrated" ->
     takeAppropriateActionForCurrentMigratable w m =
       done m (entered ++ [Once (currentMigrationTool m) "migrating"]) None)
  /\
  (forall w' n M l,
     nth_error (listeners M) n = Some l ->
     step w' (Fire n) M =
       Some (install (remove_nth n (listeners M)) (tasks M)
               (takeAppropriateActionForCurrentMigratable w' (migrator M)))).
Proof.
  unfold takeAppropriateActionForCurrentMigratable. cbv zeta.
  split; [| split; [| split]].
  - intros H. rewrite H. reflexivity.
  - intros H. rewrite H. reflexivity.
  - intros H H0. apply String.eqb_neq in H, H0. rewrite H, H0. reflexivity.
  - intros w' n M l H. cbn [step]. rewrite H. reflexivity.
Qed.

Lemma dispatcher_maps_phase_witness :
  takeAppropriateActionForCurrentMigratable collaborating idle =
    done idle [Enter_takeAppropriateActionForCurrentMigratable; Once 0 "migrating"] None.
Proof.
  exact (proj1 (proj2 (proj2 (dispatcher_maps_phase_to_one_action collaborating idle)))
           ltac:(vm_compute; discriminate) ltac:(vm_compute; discriminate)).
Defined.




(** ** The finalize phase *)

(** Every way the finalize phase can go, by the settlements it meets. *)
Lemma finalizePhase_cases mt am script m :
  let cur := currentMigrationTool m in
  let r := finalizePhase mt am script m in
  match _preparedDetachedModel m with
  | None => r = (m, [], Throw (AssertionError "this._preparedDetachedModel should be defined"))
  | Some d =>
    match script with
    | [] => r = (m, [Call_volunteerForMigration cur], Await At_volunteerForMigration)
    | (w1, Settle_bool Rejected) :: _ =>
        r = (m, [Call_volunteerForMigration cur],
             if negb (connected w1 m) then Return
             else Throw (AssertionError "We should be disconnected"))
    | (w1, Settle_bool (Resolved isAssigned)) :: rest =>
        if isSome (Tool.newContainerId (tool w1 cur)) then
          r = (m, [Call_volunteerForMigration cur], Return)
        else if negb isAssigned then
          r = (m, [Call_volunteerForMigration cur],
               Throw (AssertionError "We should be assigned the migration task"))
        else
          match _preparedModelId m with
          | Some i =>
              if negb (Tool.haveMigrationTask (tool w1 cur)) then
                r = (m, [Call_volunteerForMigration cur; Call_haveMigrationTask cur], Return)
              else
                match rest with
                | (w3, Settle_void (Resolved _)) :: _ =>
                    r = (m, [Call_volunteerForMigration cur; Call_haveMigrationTask cur;
                             Call_finalizeMigration mt i; Call_completeMigrationTask cur],
                         Return)
                | (w3, Settle_void Rejected) :: _ =>
                    r = (m, [Call_volunteerForMigration cur; Call_haveMigrationTask cur;
                             Call_finalizeMigration mt i], Throw Rejection)
                | _ =>
                    r = (m, [Call_volunteerForMigration cur; Call_haveMigrationTask cur;
                             Call_finalizeMigration mt i], Await At_finalizeMigration)
                end
          | None =>
              match rest with
              | (w2, Settle_id (Resolved i)) :: rest' =>
                  let m' := set_preparedModelId (Some i) m in
                  if negb (Tool.haveMigrationTask (tool w2 cur)) then
                    r = (m', [Call_volunteerForMigration cur; Call_attach d;
                              Call_haveMigrationTask cur], Return)
                  else
                    match rest' with
                    | (w3, Settle_void (Resolved _)) :: _ =>
                        r = (m', [Call_volunteerForMigration cur; Call_attach d;
                                  Call_haveMigrationTask cur;
                                  Call_finalizeMigration mt i;
                                  Call_completeMigrationTask cur], Return)
                    | (w3, Settle_void Rejected) :: _ =>
                        r = (m', [Call_volunteerForMigration cur; Call_attach d;
                                  Call_haveMigrationTask cur;
                                  Call_finalizeMigration mt i], Throw Rejection)
                    | _ =>
                        r = (m', [Call_volunteerForMigration cur; Call_attach d;
                                  Call_haveMigrationTask cur;
                                  Call_finalizeMigration mt i], Await At_finalizeMigration)
                    end
              | (w2, Settle_id Rejected) :: _ =>
                  r = (m, [Call_volunteerForMigration cur; Call_attach d], Throw Rejection)
              | _ =>
                  r = (m, [Call_volunteerForMigration cur; Call_attach d], Await At_attach)
              end
          end
    | _ => r = (m, [Call_volunteerForMigration cur], Await At_volunteerForMigration)
    end
  end.
Proof.
  cbv zeta. unfold finalizePhase, completeTheMigration.
  destruct (_preparedDetachedModel m) as [d|] eqn:Hd; [| reflexivity].
  destruct script as [| [w1 s1] rest]; [reflexivity |].
  destruct s1 as [[b|]| | | | | | |]; try reflexivity.
  - (* volunteer resolved *)
    cbn [runMigration resumeMigration].
    destruct (isSome (Tool.newContainerId _)) eqn:Hn; [reflexivity |].
    destruct b; cbn [negb]; [| reflexivity].
    destruct (_preparedModelId m) as [i|] eqn:Hi.
    + unfold finishTheMigration.
      destruct (Tool.haveMigrationTask _) eqn:Hh; cbn [negb]; [| reflexivity].
      destruct rest as [| [w3 s3] rest]; [reflexivity |].
      destruct s3 as [| | | |[u|] | | |]; reflexivity.
    + rewrite Hd.
      destruct rest as [| [w2 s2] rest]; [reflexivity |].
      destruct s2 as [| | | | |[i|] | |]; try reflexivity.
      cbn [runMigration resumeMigration]. unfold finishTheMigration.
      cbn [set_preparedModelId currentMigrationTool _currentMigratable].
      fold (currentMigrationTool m).
      destruct (Tool.haveMigrationTask _) eqn:Hh; cbn [negb]; [| reflexivity].
      destruct rest as [| [w3 s3] rest]; [reflexivity |].
      destruct s3 as [| | | |[u|] | | |]; reflexivity.
  - (* volunteer rejected *)
    cbn [runMigration resumeMigration].
    destruct (connected w1 m); reflexivity.
Qed.

(** Decomposing hypotheses about scripts, traces and the conditions of the
    finalize call. *)
Ltac solve_eq H :=
  first [ discriminate H
        | match type of H with
          | ?x = ?y => first [ is_var x; subst x | is_var y; subst y ]
          end
        | progress (injection H as); idtac ].

Ltac decompose_hyps :=
  repeat match goal with
  | H : exists _, _ |- _ => destruct H
  | H : _ /\ _ |- _ => destruct H
  | H : _ \/ _ |- _ => destruct H
  | H : False |- _ => destruct H
  | H : finalize_conditions _ _ _ _ |- _ => unfold finalize_conditions in H
  | H : In _ _ |- _ => progress cbn [trace_of fst snd In] in H
  | H : @eq (list _) _ _ |- _ => solve_eq H
  | H : @eq (_ * _)%type _ _ |- _ => solve_eq H
  | H : @eq Settlement _ _ |- _ => solve_eq H
  | H : @eq (Outcome _) _ _ |- _ => solve_eq H
  | H : @eq Action _ _ |- _ => solve_eq H
  | H : @eq (option _) _ _ |- _ => solve_eq H
  | H : @eq bool _ _ |- _ => solve_eq H
  | H : @eq string _ _ |- _ => solve_eq H
  | H : @eq World ?x ?y |- _ => first [ is_var x; subst x | is_var y; subst y ]
  end.

Ltac prove_conditions :=
  unfold finalize_conditions;
  eexists; split; [congruence |]; split; [eassumption |];
  first [ left; split; [eassumption |]; split; [reflexivity | eassumption]
        | right; split; [eassumption |]; eexists; split; [reflexivity | eassumption] ].

Ltac finalize_leaf C :=
  cbn [isSome negb] in C; rewrite C;
  repeat split; intros; decompose_hyps; try congruence;
  repeat match goal with
         | H1 : ?x = Some _, H2 : ?x = Some _ |- _ =>
             rewrite H1 in H2; injection H2 as; subst
         end;
  try (eexists; prove_conditions; fail);
  try (do 4 eexists; prove_conditions; fail);
  try (cbn [trace_of end_of fst snd In]; intuition congruence);
  try (split; [reflexivity |]; repeat first [ left; congruence | right ]; fail);
  try (first [ eexists [_; _]; reflexivity | eexists [_; _; _]; reflexivity ]).

(** C5, as stated, fails when the awaited [finalizeMigration] rejects: every
    condition of the claim holds (the volunteer call resolved with true, the
    tool had no new container id, [attach] resolved, the tool still reported
    the task), [finalizeMigration] is called, and [completeMigrationTask()]
    is not: the rejection ends the finalize phase. *)
Lemma finalize_rejected_skips_completeMigrationTask :
  finalize_conditions prepared
    [(migrating, Settle_bool (Resolved true));
     (migrating, Settle_id (Resolved "new"));
     (migrating, Settle_void Rejected)]
    "new" [(migrating, Settle_void Rejected)]
  /\
  finalizePhase 0 v2
    [(migrating, Settle_bool (Resolved true));
     (migrating, Settle_id (Resolved "new"));
     (migrating, Settle_void Rejected)]
    prepared
  = (set_preparedModelId (Some "new") prepared,
     [Call_volunteerForMigration 0; Call_attach detached1; Call_haveMigrationTask 0;
      Call_finalizeMigration 0 "new"],
     Throw Rejection).
Proof.
  split; [| reflexivity].
  exists migrating. split; [discriminate |]. split; [reflexivity |].
  right. split; [reflexivity |]. exists migrating. split; reflexivity.
Qed.

(** C5, amended.  In the finalize phase, [finalizeMigration(i)] is called if
    and only if, in this order: the prepared model exists,
    [volunteerForMigration] resolved, the tool had no new container id then,
    the volunteer result was true, the prepared model was attached with id
    [i] (now, or in an earlier partial attempt), and [haveMigrationTask()]
    was true after that.  [completeMigrationTask()] is called if and only if
    moreover the awaited [finalizeMigration] resolved, and then directly
    after it, and the phase returns.  A volunteer result of false with no new
    container id is a failed assertion.  If [volunteerForMigration] throws,
    the phase asserts that the tool is disconnected and returns having made
    no other call.  If the new container id is already set, the phase
    returns having called neither [attach] nor [finalizeMigration]. *)
Theorem finalize_called_iff_conditions (mt : ToolRef) (am : AcceptedMigration)
    (script : list (World * Settlement)) (m : Migrator) :
  let cur := currentMigrationTool m in
  let r := finalizePhase mt am script m in
  (forall i, In (Call_finalizeMigration mt i) (trace_of r) <->
             exists rest, finalize_conditions m script i rest)
  /\
  (forall t, In (Call_completeMigrationTask t) (trace_of r) <->
             t = cur /\
             exists i w3 u rest,
               finalize_conditions m script i ((w3, Settle_void (Resolved u)) :: rest))
  /\
  (forall i w3 u rest,
     finalize_conditions m script i ((w3, Settle_void (Resolved u)) :: rest) ->
     end_of r = Return /\
     exists pre, trace_of r =
                 pre ++ [Call_finalizeMigration mt i; Call_completeMigrationTask cur])
  /\
  (forall w1 rest,
     _preparedDetachedModel m <> None ->
     script = (w1, Settle_bool (Resolved false)) :: rest ->
     Tool.newContainerId (tool w1 cur) = None ->
     r = (m, [Call_volunteerForMigration cur],
          Throw (AssertionError "We should be assigned the migration task")))
  /\
  (forall w1 rest,
     _preparedDetachedModel m <> None ->
     script = (w1, Settle_bool Rejected) :: rest ->
     r = (m, [Call_volunteerForMigration cur],
          if negb (connected w1 m) then Return
          else Throw (AssertionError "We should be disconnected")))
  /\
  (forall w1 isAssigned rest,
     _preparedDetachedModel m <> None ->
     script = (w1, Settle_bool (Resolved isAssigned)) :: rest ->
     Tool.newContainerId (tool w1 cur) <> None ->
     r = (m, [Call_volunteerForMigration cur], Return)).
Proof.
  cbv zeta.
  pose proof (finalizePhase_cases mt am script m) as C. cbv zeta in C.
  destruct (_preparedDetachedModel m) as [d|] eqn:Hd; [| finalize_leaf C].
  destruct script as [| [w1 s1] rest]; [finalize_leaf C |].
  destruct s1 as [[b|]| | | | | | |]; try (finalize_leaf C; fail).
  destruct (Tool.newContainerId (tool w1 (currentMigrationTool m))) eqn:Hn;
    [finalize_leaf C |].
  destruct b; [| finalize_leaf C].
  destruct (_preparedModelId m) as [i0|] eqn:Hi.
  - destruct (Tool.haveMigrationTask (tool w1 (currentMigrationTool m))) eqn:Hh;
      [| finalize_leaf C].
    destruct rest as [| [w3 s3] rest]; [finalize_leaf C |].
    destruct s3 as [| | | |[u|] | | |]; finalize_leaf C.
  - destruct rest as [| [w2 s2] rest]; [finalize_leaf C |].
    destruct s2 as [| | | | |[i|] | |]; try (finalize_leaf C; fail).
    destruct (Tool.haveMigrationTask (tool w2 (currentMigrationTool m))) eqn:Hh;
      [| finalize_leaf C].
    destruct rest as [| [w3 s3] rest]; [finalize_leaf C |].
    destruct s3 as [| | | |[u|] | | |]; finalize_leaf C.
Qed.

Lemma finalize_called_witness :
  In (Call_finalizeMigration 0 "new")
     (trace_of (finalizePhase 0 v2
                  [(migrating, Settle_bool (Resolved true));
                   (migrating, Settle_id (Resolved "new"))] prepared)).
Proof.
  pose proof (proj1 (finalize_called_iff_conditions 0 v2
                       [(migrating, Settle_bool (Resolved true));
                        (migrating, Settle_id (Resolved "new"))] prepared) "new")
    as [_ H].
  apply H. exists []. exists migrating.
  split; [discriminate |]. split; [reflexivity |].
  right. split; [reflexivity |]. exists migrating. split; reflexivity.
Defined.

(** ** Recoverable conditions of the prepare phase *)

(** Once the prepare phase has given up, the attempt does nothing more:
    when it resumes, either the tool has left [migrating] and
    [doTheMigration] returns, or the finalize phase finds no prepared
    model. *)
Lemma abandoned_tail mt am rest m :
  _preparedDetachedModel m = None ->
  fst (runMigration mt am rest At_prepareTheMigration m) = (m, []).
Proof.
  intros Hd. destruct rest as [| [w s] rest]; [reflexivity |].
  destruct s; try reflexivity.
  cbn [runMigration resumeMigration]. unfold afterPrepare, completeTheMigration.
  rewrite Hd. destruct (negb _); reflexivity.
Qed.

Lemma abandoned_run mt am rest m :
  _preparedDetachedModel m = None ->
  exists c, runMigration mt am rest At_prepareTheMigration m = (m, [], c).
Proof.
  intros Hd. pose proof (abandoned_tail mt am rest m Hd) as H.
  destruct (runMigration mt am rest At_prepareTheMigration m) as [[m' out] c].
  cbn in H. injection H as -> ->. eauto.
Qed.

(** C6. Take an attempt that [ensureMigrating] starts with nothing
    prepared, for the accepted migration [am].  (a) If [supportsVersion]
    resolves to false, or (b) the exported data is not natively supported
    and the supplied transform callback throws, or (c) the exported data is
    not natively supported and there is no transform callback, then,
    however the attempt goes on, it emits exactly one
    [migrationNotSupported(newVersion)]; in case (a) [createDetached] is
    never called, in cases (b) and (c) [importData] is never called; and in
    all three the current session is unchanged. *)
Theorem recoverable_conditions_notify_once (w0 : World) (am : AcceptedMigration)
    (m : Migrator) (script : list (World * Settlement)) :
  connected w0 m = true ->
  _migrationP m = None ->
  _migratedLoadP m = None ->
  Tool.acceptedMigration (tool w0 (currentMigrationTool m)) = Some am ->
  _preparedDetachedModel m = None ->
  let r := attempt w0 script m in
  let notified :=
    filter is_migrationNotSupported (trace_of r)
      = [Emit_migrationNotSupported (newVersion am)] /\
    _currentMigratable (fields_of r) = _currentMigratable m /\
    currentModelId (fields_of r) = currentModelId m in
  (forall w1 rest,
     script = (w1, Settle_bool (Resolved false)) :: rest ->
     notified /\ forall v, ~ In (Call_createDetached v) (trace_of r))
  /\
  (forall w1 w2 w3 w4 w5 d em data cb rest,
     script = (w1, Settle_bool (Resolved true))
              :: (w2, Settle_detached (Resolved d))
              :: (w3, Settle_paused (Resolved em))
              :: (w4, Settle_data (Resolved data))
              :: (w5, Settle_data Rejected) :: rest ->
     supportsDataFormat w4 (Detached.model d) data = false ->
     dataTransformationCallback m = Some cb ->
     notified /\ forall mo x, ~ In (Call_importData mo x) (trace_of r))
  /\
  (forall w1 w2 w3 w4 d em data rest,
     script = (w1, Settle_bool (Resolved true))
              :: (w2, Settle_detached (Resolved d))
              :: (w3, Settle_paused (Resolved em))
              :: (w4, Settle_data (Resolved data)) :: rest ->
     supportsDataFormat w4 (Detached.model d) data = false ->
     dataTransformationCallback m = None ->
     notified /\ forall mo x, ~ In (Call_importData mo x) (trace_of r)).
Proof.
  intros Hc Hp Hl Ha Hd. cbv zeta.
  assert (E : ensureMigrating w0 m =
              done (set_migrationP (Some Pending) m)
                   [Emit_migrating; Call_supportsVersion (newVersion am)]
                   (Some (MigrationTask (currentMigrationTool m) am At_supportsVersion))).
  { unfold ensureMigrating. rewrite Hc, Hp, Hl, Ha. cbn [negb isSome].
    unfold doTheMigration. rewrite Hd. reflexivity. }
  unfold attempt. rewrite E. cbn [eff_task eff_m eff_out done].
  repeat split; intros; subst script; cbn [runMigration resumeMigration negb] in *.
  all: try (unfold transformAndImport in *;
            cbn [set_migrationP dataTransformationCallback] in *;
            repeat match goal with
                   | H : supportsDataFormat _ _ _ = _ |- _ => rewrite H in *
                   | H : dataTransformationCallback _ = _ |- _ => rewrite H in *
                   end;
            cbn [runMigration resumeMigration negb] in * ).
  all: match goal with
       | |- context [runMigration ?mt ?a ?rest At_prepareTheMigration ?m'] =>
           destruct (abandoned_run mt a rest m' Hd) as [c Hr]; rewrite Hr in *
       | H : context [runMigration ?mt ?a ?rest At_prepareTheMigration ?m'] |- _ =>
           destruct (abandoned_run mt a rest m' Hd) as [c Hr]; rewrite Hr in *
       end.
  all: try reflexivity.
  all: cbn in *; intuition discriminate.
Qed.

Lemma recoverable_conditions_witness :
  filter is_migrationNotSupported
    (trace_of (attempt migrating
                 [(migrating, Settle_bool (Resolved false)); (migrating, Tick)] idle))
  = [Emit_migrationNotSupported "v2"]
  /\
  filter is_migrationNotSupported
    (trace_of (attempt migrating_foreign
                 [(migrating_foreign, Settle_bool (Resolved true));
                  (migrating_foreign, Settle_detached (Resolved detached1));
                  (migrating_foreign, Settle_paused (Resolved 5));
                  (migrating_foreign, Settle_data (Resolved 42));
                  (migrating_foreign, Tick)] idle))
  = [Emit_migrationNotSupported "v2"].
Proof.
  split.
  - pose proof (recoverable_conditions_notify_once migrating v2 idle
                  [(migrating, Settle_bool (Resolved false)); (migrating, Tick)]
                  eq_refl eq_refl eq_refl eq_refl eq_refl) as H.
    cbv zeta in H. destruct H as [H _].
    exact (proj1 (proj1 (H migrating [(migrating, Tick)] eq_refl))).
  - pose proof (recoverable_conditions_notify_once migrating_foreign v2 idle
                  [(migrating_foreign, Settle_bool (Resolved true));
                   (migrating_foreign, Settle_detached (Resolved detached1));
                   (migrating_foreign, Settle_paused (Resolved 5));
                   (migrating_foreign, Settle_data (Resolved 42));
                   (migrating_foreign, Tick)]
                  eq_refl eq_refl eq_refl eq_refl eq_refl) as H.
    cbv zeta in H. destruct H as (_ & _ & H).
    exact (proj1 (proj1 (H migrating_foreign migrating_foreign migrating_foreign
                           migrating_foreign detached1 5 42
                           [(migrating_foreign, Tick)] eq_refl eq_refl eq_refl))).
Defined.

(** ** The dispatcher, case by case *)

Lemma dispatch_dispatched w m :
  dispatched w m (takeAppropriateActionForCurrentMigratable w m).
Proof.
  unfold takeAppropriateActionForCurrentMigratable, after.
  destruct (Tool.migrationState (tool w (currentMigrationTool m)) =? "migrating") eqn:Hs.
  - unfold ensureMigrating, connected.
    destruct (Tool.connected _); cbn [negb]; [| apply dispatched_listen].
    destruct (_migrationP m) eqn:Hp; cbn [isSome].
    { apply dispatched_in_flight. left. congruence. }
    destruct (_migratedLoadP m) eqn:Hl; cbn [isSome]; [apply dispatched_throw |].
    destruct (Tool.acceptedMigration _) as [am|]; [| apply dispatched_throw].
    unfold doTheMigration, afterPrepare, migrationState, completeTheMigration,
      prepareTheMigration.
    destruct (_preparedDetachedModel m) eqn:Hd.
    + rewrite Hs. cbn.
      apply (dispatched_finalize w m am); congruence.
    + cbn. apply (dispatched_prepare w m am); congruence.
  - destruct (Tool.migrationState (tool w (currentMigrationTool m)) =? "migrated").
    + unfold ensureLoading.
      destruct (_migratedLoadP m) eqn:Hl; cbn [isSome].
      { apply dispatched_in_flight. right. congruence. }
      destruct (_migrationP m) eqn:Hp; cbn [isSome]; [apply dispatched_throw |].
      destruct (Tool.acceptedMigration _) as [am|]; [| apply dispatched_throw].
      destruct (Tool.newContainerId _) as [i|]; [| apply dispatched_throw].
      cbn. apply (dispatched_load w m am i); congruence.
    + apply dispatched_listen.
Qed.

(** ** The invariant *)

(** The machine that a dispatcher invocation leaves, when nothing else is
    pending, satisfies the invariant. *)
Lemma dispatched_inv w m e pre :
  dispatched w m e ->
  _migrationP m = None -> _migratedLoadP m = None ->
  (_preparedModelId m <> None -> _preparedDetachedModel m <> None) ->
  registered pre = [] ->
  machine_inv (fst (fst (install [] [] (after pre e)))) /\
  machine_inv (fst (fst (install [] [] (caught (after pre e))))).
Proof.
  intros D Hp Hl Hid Hpre.
  assert (R : forall out, registered (pre ++ out) = registered out).
  { intros out. induction pre as [| a pre IH]; [reflexivity |].
    destruct a; cbn in *; try discriminate; auto. }
  assert (R' : forall out, registered (out ++ [Console_error]) = registered out).
  { intros out. induction out as [| a out IH]; [reflexivity |].
    destruct a; cbn in *; congruence. }
  destruct D; unfold machine_inv, install, caught, after; cbn;
    rewrite ?R', ?R; cbn; repeat split; auto; try congruence; try tauto.
Qed.

Lemma construct_inv w mo t i cb M out err :
  construct w mo t i cb = (M, out, err) -> machine_inv M.
Proof.
  unfold construct. intros H.
  match type of H with
  | install [] [] (takeAppropriateActionForCurrentMigratable ?w ?m) = _ =>
      pose proof (dispatched_inv w m _ [] (dispatch_dispatched w m)
                    eq_refl eq_refl ltac:(cbn; congruence) eq_refl) as [I _]
  end.
  unfold after in I. cbn [app] in I.
  unfold install in *. injection H as <- _ _. exact I.
Qed.

(** In a machine that satisfies the invariant, an enabled input is the one
    pending thing. *)
Lemma enabled_input w i M r :
  machine_inv M ->
  step w i M = Some r ->
  (exists l, i = Fire 0 /\ listeners M = [l] /\ tasks M = [] /\
             _migrationP (migrator M) = None /\ _migratedLoadP (migrator M) = None /\
             r = install [] [] (takeAppropriateActionForCurrentMigratable w (migrator M)))
  \/
  (exists t s e, i = Settle 0 s /\ listeners M = [] /\ tasks M = [t] /\
                 task_inv (migrator M) t /\
                 resumeTask w t s (migrator M) = Some e /\
                 r = install [] [] e).
Proof.
  intros [_ I] H. destruct M as [m ls ts]. cbn in *.
  destruct ts as [| t [| t' ts]], ls as [| l [| l' ls]]; try contradiction.
  - destruct i as [[| n] | [| n] s]; discriminate.
  - destruct i as [[| n] | [| n] s]; try discriminate.
    + left. exists l. cbn in H. injection H as <-. destruct I. auto 10.
    + destruct n; discriminate.
  - destruct i as [[| n] | [| n] s]; try discriminate.
    + right. cbn in H.
      destruct (resumeTask w t s m) as [e|] eqn:He; [| discriminate].
      injection H as <-. exists t, s, e. auto 10.
    + destruct n; discriminate.
Qed.

Lemma registered_app out1 out2 :
  registered (out1 ++ out2) = registered out1 ++ registered out2.
Proof.
  induction out1 as [| a out1 IH]; [reflexivity |].
  destruct a; cbn; rewrite ?IH; reflexivity.
Qed.

Lemma step_inv w i M M' out err :
  machine_inv M ->
  step w i M = Some (M', out, err) ->
  machine_inv M'.
Proof.
  intros I H. pose proof I as [Hid _].
  destruct (enabled_input w i M _ I H)
    as [(l & -> & Hl & Ht & Hp & Hlp & E) | (t & s & e & -> & Hl & Ht & It & He & E)].
  - pose proof (dispatched_inv w (migrator M) _ [] (dispatch_dispatched w (migrator M))
                  Hp Hlp Hid eq_refl) as [J _].
    injection E as -> _ _. exact J.
  - destruct t as [mt am pc | am mid pc].
    + (* a migration attempt *)
      destruct It as [Hlp It].
      destruct pc; cbn [resumeTask] in He.
      11: { (* the .then callback *)
        destruct s; try discriminate. injection He as <-.
        unfold thenCallback in E.
        destruct (connected w (migrator M) && _) eqn:Hc.
        - injection E as -> _ _. unfold machine_inv. cbn. auto.
        - assert (Hid' : _preparedModelId (set_migrationP None (migrator M)) <> None ->
                         _preparedDetachedModel (set_migrationP None (migrator M)) <> None)
            by exact Hid.
          pose proof (dispatched_inv w _ _ []
                        (dispatch_dispatched w (set_migrationP None (migrator M)))
                        eq_refl Hlp Hid' eq_refl) as [_ J].
          injection E as -> _ _. exact J. }
      all: destruct (resumeMigration w mt am _ s (migrator M)) as [[[m1 out1] c]|] eqn:Hr;
        [| discriminate]; cbn [option_map] in He; injection He as <-.
      all: destruct s as [[?|]|[?|]|[?|]|[?|]|[?|]|[?|]|[?|]|]; cbn in Hr;
        try discriminate.
      all: unfold transformAndImport, afterPrepare, completeTheMigration,
             finishTheMigration in Hr.
      all: repeat break_if; inversion Hr; subst; clear Hr.
      all: injection E as -> _ _; unfold machine_inv; cbn in *.
      all: try (intuition congruence).
    + (* a load *)
      destruct It as [Hp Hlp].
      cbn [resumeTask] in He.
      destruct pc, s as [[b|]|[?|]|[?|]|[?|]|[?|]|[?|]|[[mo t']|]|]; cbn in He;
        try discriminate.
      * destruct b; cbn in He; injection He as <-; injection E as -> _ _;
          unfold machine_inv; cbn; intuition congruence.
      * injection He as <-. injection E as -> _ _.
        unfold machine_inv; cbn; intuition congruence.
      * injection He as <-.
        match type of E with
        | context [takeAppropriateActionForCurrentMigratable w ?m4] =>
            pose proof (dispatched_inv w m4 _ [Emit_migrated mo mid]
                          (dispatch_dispatched w m4)
                          Hp eq_refl ltac:(cbn; congruence) eq_refl) as [_ J]
        end.
        injection E as -> _ _. exact J.
      * injection He as <-. injection E as -> _ _.
        unfold machine_inv; cbn; intuition congruence.
Qed.

Lemma reachable_inv M : reachable M -> machine_inv M.
Proof.
  induction 1 as [w mo t i cb M out err H | w i M M' out err _ IH H].
  - exact (construct_inv _ _ _ _ _ _ _ _ H).
  - exact (step_inv _ _ _ _ _ _ IH H).
Qed.

(** ** The current session *)

Lemma dispatch_keeps_session w m :
  _currentMigratable (eff_m (takeAppropriateActionForCurrentMigratable w m))
  = _currentMigratable m.
Proof. destruct (dispatch_dispatched w m); reflexivity. Qed.

Lemma caught_fields e : eff_m (caught e) = eff_m e.
Proof. unfold caught. destruct (eff_thrown e); reflexivity. Qed.

Lemma resumeMigration_keeps_session w mt am pc s m m' out c :
  resumeMigration w mt am pc s m = Some (m', out, c) ->
  _currentMigratable m' = _currentMigratable m.
Proof.
  intros H.
  destruct pc, s as [[?|]|[?|]|[?|]|[?|]|[?|]|[?|]|[?|]|]; cbn in H; try discriminate;
    unfold transformAndImport, afterPrepare, completeTheMigration,
      finishTheMigration in H;
    repeat break_if; inversion H; subst; reflexivity.
Qed.

Lemma settleSegment_fields mt am seg : eff_m (settleSegment mt am seg) = fst (fst seg).
Proof. destruct seg as [[m out] [pc | | e]]; reflexivity. Qed.

Lemma step_session w i M M' out err :
  step w i M = Some (M', out, err) ->
  _currentMigratable (migrator M') =
    match swapped i M with
    | Some p => p
    | None => _currentMigratable (migrator M)
    end.
Proof.
  intros H. destruct i as [n | n s]; cbn in H.
  - destruct (nth_error (listeners M) n); [| discriminate].
    injection H as <- _ _. cbn. apply dispatch_keeps_session.
  - unfold swapped.
    destruct (nth_error (tasks M) n) as [t|]; [| discriminate].
    destruct (resumeTask w t s (migrator M)) as [e|] eqn:He; [| discriminate].
    injection H as <- _ _. cbn [install migrator fst].
    destruct t as [mt am pc | am mid pc].
    + assert (K : _currentMigratable (eff_m e) = _currentMigratable (migrator M)).
      { destruct pc; cbn [resumeTask] in He.
        11: { destruct s; try discriminate. injection He as <-.
              unfold thenCallback. destruct (_ && _); rewrite caught_fields;
                [reflexivity | exact (dispatch_keeps_session _ _)]. }
        all: destruct (resumeMigration w mt am _ s (migrator M))
               as [[[m1 out1] c]|] eqn:Hr; [| discriminate];
          cbn [option_map] in He; injection He as <-; destruct c; cbn [eff_m done];
          exact (resumeMigration_keeps_session _ _ _ _ _ _ _ _ _ Hr). }
      rewrite K. destruct s as [| | | | | |[[? ?]|] |]; reflexivity.
    + cbn [resumeTask] in He.
      destruct pc, s as [[b|]|[?|]|[?|]|[?|]|[?|]|[?|]|[[mo t']|]|]; cbn in He;
        try discriminate.
      * destruct b; injection He as <-; reflexivity.
      * injection He as <-. reflexivity.
      * injection He as <-. rewrite caught_fields. cbn [after eff_m].
        exact (dispatch_keeps_session _ _).
      * injection He as <-. reflexivity.
Qed.

Lemma last_cons {A} (l : list A) (a d : A) : last (a :: l) d = last l a.
Proof.
  revert a d. induction l as [| b l IH]; intros a d; [reflexivity |].
  change (last (b :: l) d = last (b :: l) a). rewrite !IH. reflexivity.
Qed.

Lemma last_app_default {A} (l1 l2 : list A) (d : A) :
  last (l1 ++ l2) d = last l2 (last l1 d).
Proof.
  revert d. induction l1 as [| a l1 IH]; intros d; [reflexivity |].
  cbn [app]. rewrite !last_cons. apply IH.
Qed.

Lemma run_session script : forall M M' out,
  run script M = Some (M', out) ->
  _currentMigratable (migrator M') =
    last (sessions script M) (_currentMigratable (migrator M)).
Proof.
  induction script as [| [w i] script IH]; intros M M' out H; cbn in H.
  - injection H as <- _. reflexivity.
  - cbn [sessions].
    destruct (step w i M) as [[[M1 out1] err]|] eqn:Hs; [| discriminate].
    destruct (run script M1) as [[M2 out2]|] eqn:Hr; [| discriminate].
    injection H as <- _.
    rewrite last_app_default, (IH _ _ _ Hr), (step_session _ _ _ _ _ _ Hs).
    destruct (swapped i M); reflexivity.
Qed.

(** C1. The three accessors read the fields of one record,
    [_currentMigratable].  The constructor sets it to the initial session.
    After that, whatever the surroundings do and in whatever order (any
    enabled input, in any machine), a step leaves the record as it is,
    except the one step in which a load resumes with the resolved
    [loadExisting(migratedId)]: that step replaces the whole record by the
    loaded model, the loaded model's own migration tool, and [migratedId].
    So after any run the current session is the initial one or, whole, the
    last session loaded in the run. *)
Theorem current_session_is_one_record :
  (forall m,
     currentModel m = model (_currentMigratable m) /\
     currentMigrationTool m = migrationTool (_currentMigratable m) /\
     currentModelId m = id (_currentMigratable m))
  /\
  (forall w mo t i cb,
     _currentMigratable (migrator (fst (fst (construct w mo t i cb))))
     = {| model := mo; migrationTool := t; id := i |})
  /\
  (forall w i M M' out err,
     step w i M = Some (M', out, err) ->
     _currentMigratable (migrator M') =
       match swapped i M with
       | Some session => session
       | None => _currentMigratable (migrator M)
       end)
  /\
  (forall script M M' out,
     run script M = Some (M', out) ->
     _currentMigratable (migrator M') =
       last (sessions script M) (_currentMigratable (migrator M)) /\
     In (_currentMigratable (migrator M'))
        (_currentMigratable (migrator M) :: sessions script M)).
Proof.
  split; [| split; [| split]].
  - intros m. repeat split.
  - intros w mo t i cb. unfold construct. cbn [install fst migrator].
    exact (dispatch_keeps_session _ _).
  - exact step_session.
  - intros script M M' out H. pose proof (run_session _ _ _ _ H) as E.
    split; [exact E |]. rewrite E.
    destruct (sessions script M) as [| p l] eqn:Es; [left; reflexivity |].
    right. clear. revert p. generalize (_currentMigratable (migrator M)) as d.
    induction l as [| b l IHl]; intros d p.
    + left. reflexivity.
    + rewrite last_cons. right. apply IHl.
Qed.

Lemma current_session_witness :
  exists M' out,
    run happy started = Some (M', out) /\
    _currentMigratable (migrator M') = {| model := 20; migrationTool := 21; id := "new" |}.
Proof.
  destruct (run happy started) as [[M' out]|] eqn:E; [| vm_compute in E; discriminate].
  exists M', out. split; [reflexivity |].
  rewrite (proj1 (proj2 (proj2 (proj2 current_session_is_one_record))
                    happy started M' out E)).
  reflexivity.
Defined.

(** ** Disposal *)

Lemma dispatch_no_dispose w m x :
  ~ In (Call_dispose x) (eff_out (takeAppropriateActionForCurrentMigratable w m)).
Proof.
  destruct (dispatch_dispatched w m); cbn; intuition discriminate.
Qed.

Lemma caught_out e x :
  In (Call_dispose x) (eff_out (caught e)) -> In (Call_dispose x) (eff_out e).
Proof.
  unfold caught. destruct (eff_thrown e); cbn; auto.
  intros H. apply in_app_or in H as [H | [H | []]]; [exact H | discriminate].
Qed.

Lemma resumeLoad_no_dispose w am mid pc s m e x :
  resumeLoad w am mid pc s m = Some e -> ~ In (Call_dispose x) (eff_out e).
Proof.
  intros H Hin.
  destruct pc, s as [[b|]|[?|]|[?|]|[?|]|[?|]|[?|]|[[mo t']|]|]; cbn in H;
    try discriminate.
  - destruct b; injection H as <-; cbn in Hin; intuition discriminate.
  - injection H as <-. cbn in Hin. intuition discriminate.
  - injection H as <-. apply caught_out in Hin. cbn in Hin.
    destruct Hin as [Hin | Hin]; [discriminate |].
    exact (dispatch_no_dispose _ _ _ Hin).
  - injection H as <-. cbn in Hin. intuition discriminate.
Qed.

Lemma resumeMigration_dispose w mt am pc s m m' out c x :
  resumeMigration w mt am pc s m = Some (m', out, c) ->
  In (Call_dispose x) out ->
  exists d data rest,
    pc = At_exportData d x /\ s = Settle_data (Resolved data) /\
    out = Call_dispose x :: rest /\ filter is_dispose rest = [].
Proof.
  intros H Hin.
  destruct pc, s as [[?|]|[?|]|[?|]|[?|]|[?|]|[?|]|[?|]|]; cbn in H; try discriminate;
    unfold transformAndImport, afterPrepare, completeTheMigration,
      finishTheMigration in H;
    repeat break_if; inversion H; subst; clear H; cbn in Hin;
    repeat match goal with
           | H : _ \/ _ |- _ => destruct H
           | H : False |- _ => destruct H
           | H : @eq Action _ _ |- _ => first [discriminate H | injection H as ->]
           end;
    do 3 eexists; repeat split.
Qed.

Lemma resumeMigration_enters_exportData w mt am pc s m m' out d x :
  resumeMigration w mt am pc s m = Some (m', out, Await (At_exportData d x)) ->
  pc = At_loadExistingPaused d /\ s = Settle_paused (Resolved x) /\
  out = [Call_exportData x].
Proof.
  intros H.
  destruct pc, s as [[?|]|[?|]|[?|]|[?|]|[?|]|[?|]|[?|]|]; cbn in H; try discriminate;
    unfold transformAndImport, afterPrepare, completeTheMigration,
      finishTheMigration in H;
    repeat break_if; inversion H; subst; auto.
Qed.

(** A [dispose()] call only occurs as the first action of the stretch that
    resumes the [exportData()] await. *)
Lemma step_dispose w i M M' out err x :
  step w i M = Some (M', out, err) ->
  In (Call_dispose x) out ->
  exists n mt am d data rest,
    i = Settle n (Settle_data (Resolved data)) /\
    nth_error (tasks M) n = Some (MigrationTask mt am (At_exportData d x)) /\
    out = Call_dispose x :: rest /\ filter is_dispose rest = [].
Proof.
  intros H Hin. destruct i as [n | n s]; cbn in H.
  - destruct (nth_error (listeners M) n); [| discriminate].
    injection H as _ <- _. destruct (dispatch_no_dispose _ _ _ Hin).
  - destruct (nth_error (tasks M) n) as [t|] eqn:Ht; [| discriminate].
    destruct (resumeTask w t s (migrator M)) as [e|] eqn:He; [| discriminate].
    injection H as _ <- _.
    destruct t as [mt am pc | am mid pc].
    + destruct pc; cbn [resumeTask] in He.
      11: { destruct s; try discriminate. injection He as <-.
            unfold thenCallback in Hin. destruct (_ && _).
            - cbn in Hin. intuition discriminate.
            - apply caught_out in Hin. destruct (dispatch_no_dispose _ _ _ Hin). }
      all: destruct (resumeMigration w mt am _ s (migrator M))
             as [[[m1 out1] c]|] eqn:Hr; [| discriminate];
        cbn [option_map] in He; injection He as <-.
      all: assert (Hin1 : In (Call_dispose x) out1)
             by (destruct c; cbn in Hin; auto;
                 apply in_app_or in Hin as [Hin | [Hin | []]];
                 [exact Hin | discriminate]).
      all: destruct (resumeMigration_dispose _ _ _ _ _ _ _ _ _ _ Hr Hin1)
             as (d & data & rest & Hpc & -> & Ho & Hf); try discriminate Hpc.
      injection Hpc as <- <-.
      unfold resumeMigration, transformAndImport in Hr.
      exists n, mt, am, detachedModel, data.
      destruct (supportsDataFormat _ _ _); [| destruct (dataTransformationCallback _)];
        inversion Hr; subst; cbn; eexists; repeat split; eauto.
    + destruct (resumeLoad_no_dispose _ _ _ _ _ _ _ x He Hin).
Qed.

Lemma no_dispose_split h out pre x post :
  filter is_dispose out = [] ->
  h ++ out = pre ++ Call_dispose x :: post ->
  exists post', h = pre ++ Call_dispose x :: post'.
Proof.
  intros F E. apply app_eq_app in E as [l [[-> E] | [-> E]]].
  - destruct l as [| a l].
    + cbn in E. subst out. cbn in F. discriminate.
    + cbn in E. injection E as <- ->. eauto.
  - exfalso. rewrite E, filter_app in F. cbn in F.
    apply app_eq_nil in F as [_ F]. discriminate.
Qed.

Lemma step_dispose_follows w i M M' out err h :
  machine_inv M ->
  exportData_pending M h ->
  dispose_follows_exportData h ->
  step w i M = Some (M', out, err) ->
  dispose_follows_exportData (h ++ out) /\ exportData_pending M' (h ++ out).
Proof.
  intros I P D H.
  assert (S1 : forall x, In (Call_dispose x) out ->
     exists n mt am d data rest,
       i = Settle n (Settle_data (Resolved data)) /\
       nth_error (tasks M) n = Some (MigrationTask mt am (At_exportData d x)) /\
       out = Call_dispose x :: rest /\ filter is_dispose rest = [])
    by (intros x; exact (step_dispose _ _ _ _ _ _ x H)).
  split.
  - intros pre x post E.
    destruct (in_dec (fun a b : bool => Bool.bool_dec a b) true
                (map is_dispose out)) as [Hd | Hd].
    + (* the step disposes: it resumes the exportData await *)
      apply in_map_iff in Hd as (a & Ha & Hin). destruct a; try discriminate.
      destruct (S1 _ Hin) as (n & mt & am & d & data & rest & -> & Hn & -> & Hf).
      pose proof I as [_ I'].
      destruct (tasks M) as [| t0 [| t1 ts]] eqn:Ht, (listeners M) as [| l0 [| l1 ls]];
        try contradiction; try (destruct n; discriminate).
      destruct n as [| n]; [| destruct n; discriminate]. injection Hn as ->.
      destruct (P _ _ _ _ Ht) as [pre0 ->].
      change (Call_dispose mo :: rest) with ([Call_dispose mo] ++ rest) in E.
      rewrite app_assoc in E.
      destruct (no_dispose_split _ _ _ _ _ Hf E) as [post' E'].
      apply app_eq_app in E' as [l [[E1 E2] | [E1 E2]]].
      * destruct l as [| a l].
        { cbn in E2. injection E2 as -> _. rewrite app_nil_r in E1.
          subst pre. eauto. }
        { cbn in E2. injection E2 as <- E2.
          exact (D pre x l E1). }
      * destruct l as [| a l].
        { cbn in E2. injection E2 as <- _. rewrite app_nil_r in E1.
          subst pre. eauto. }
        { cbn in E2. injection E2 as _ E2. destruct l; discriminate E2. }
    + (* the step disposes nothing *)
      assert (F : filter is_dispose out = []).
      { clear - Hd. induction out as [| a out IH]; [reflexivity |].
        cbn in *. destruct (is_dispose a); [exfalso; apply Hd; auto |].
        apply IH. intros Hin. apply Hd. auto. }
      destruct (no_dispose_split _ _ _ _ _ F E) as [post' E'].
      exact (D _ _ _ E').
  - intros mt am d x Ht.
    destruct (enabled_input w i M _ I H)
      as [(l & -> & Hl & Ht0 & Hp & Hlp & E) | (t & s & e & -> & Hl & Ht0 & It & He & E)].
    + remember (takeAppropriateActionForCurrentMigratable w (migrator M)) as e0 eqn:Ee.
      injection E as -> _ _. cbn [install tasks fst app] in Ht. subst e0.
      destruct (dispatch_dispatched w (migrator M)); discriminate Ht.
    + destruct t as [mt0 am0 pc | am0 mid pc].
      * destruct pc; cbn [resumeTask] in He.
        11: { destruct s; try discriminate. injection He as <-.
          injection E as -> _ _. cbn [install tasks fst app] in Ht.
          unfold thenCallback in Ht. destruct (_ && _); [discriminate Ht |].
          unfold caught in Ht.
          destruct (dispatch_dispatched w (set_migrationP None (migrator M)));
            discriminate Ht. }
        all: destruct (resumeMigration w mt0 am0 _ s (migrator M))
               as [[[m1 out1] c]|] eqn:Hr; [| discriminate];
          cbn [option_map] in He; injection He as <-.
        all: injection E as -> -> _; cbn [install tasks fst app] in Ht.
        all: destruct c as [pc' | |]; cbn in Ht; try discriminate Ht.
        all: injection Ht as _ _ ->.
        all: destruct (resumeMigration_enters_exportData _ _ _ _ _ _ _ _ _ _ Hr)
               as (Hpc & _ & Ho); try discriminate Hpc.
        cbn. rewrite Ho. eauto.
      * cbn [resumeTask] in He.
        destruct pc, s as [[b|]|[?|]|[?|]|[?|]|[?|]|[?|]|[[mo t']|]|]; cbn in He;
          try discriminate.
        -- destruct b; injection He as <-; injection E as -> _ _; discriminate Ht.
        -- injection He as <-. injection E as -> _ _. discriminate Ht.
        -- injection He as <-.
           match type of E with
           | context [caught ?x] => remember (caught x) as e1 eqn:Ee1
           end.
           injection E as -> _ _. cbn [install tasks fst app] in Ht. subst e1.
           unfold caught, after in Ht. cbn [eff_thrown eff_task eff_m eff_out done] in Ht.
           match type of Ht with
           | context [takeAppropriateActionForCurrentMigratable w ?m4] =>
               destruct (dispatch_dispatched w m4); discriminate Ht
           end.
        -- injection He as <-. injection E as -> _ _. discriminate Ht.
Qed.

Lemma run_dispose_follows script : forall M M' tr h,
  machine_inv M ->
  exportData_pending M h ->
  dispose_follows_exportData h ->
  run script M = Some (M', tr) ->
  dispose_follows_exportData (h ++ tr).
Proof.
  induction script as [| [w i] script IH]; intros M M' tr h I P D H; cbn in H.
  - injection H as _ <-. rewrite app_nil_r. exact D.
  - destruct (step w i M) as [[[M1 out1] err]|] eqn:Hs; [| discriminate].
    destruct (run script M1) as [[M2 out2]|] eqn:Hr; [| discriminate].
    injection H as _ <-.
    destruct (step_dispose_follows _ _ _ _ _ _ _ I P D Hs) as [D1 P1].
    rewrite app_assoc.
    exact (IH _ _ _ _ (step_inv _ _ _ _ _ _ I Hs) P1 D1 Hr).
Qed.

Lemma construct_dispose_follows w mo t i cb M out err :
  construct w mo t i cb = (M, out, err) ->
  dispose_follows_exportData out /\ exportData_pending M out.
Proof.
  unfold construct. intros H.
  match type of H with
  | install [] [] (takeAppropriateActionForCurrentMigratable ?w ?m) = _ =>
      remember (takeAppropriateActionForCurrentMigratable w m) as e0 eqn:Ee;
      pose proof (dispatch_dispatched w m) as Dd; rewrite <- Ee in Dd
  end.
  injection H as <- <- _. split.
  - intros pre x post E.
    assert (Hin : In (Call_dispose x) (eff_out e0))
      by (rewrite E; apply in_or_app; right; left; reflexivity).
    destruct Dd; cbn in Hin; intuition discriminate.
  - intros mt am d x Ht. cbn [install tasks fst app] in Ht.
    destruct Dd; discriminate Ht.
Qed.

(** C9. In every step of the machine, a [dispose()] call can only be the
    first action of the stretch that resumes the [exportData()] await of a
    migration attempt, and it is on the model that was loaded paused for the
    export (that await is only ever entered by resuming [loadExistingPaused]
    with that model, calling [exportData] on it); the stretch makes no other
    [dispose()] call.  Hence the constructor disposes nothing, the load
    executor disposes nothing, and the step that swaps the session in leaves
    the predecessor model undisposed.  And in the trace of any run from the
    constructor, every [dispose()] comes directly after the [exportData()]
    on the same model. *)
Theorem dispose_only_after_exportData :
  (forall w i M M' out err x,
     step w i M = Some (M', out, err) ->
     In (Call_dispose x) out ->
     exists n mt am d data rest,
       i = Settle n (Settle_data (Resolved data)) /\
       nth_error (tasks M) n = Some (MigrationTask mt am (At_exportData d x)) /\
       out = Call_dispose x :: rest /\ filter is_dispose rest = [])
  /\
  (forall w mt am pc s m m' out d x,
     resumeMigration w mt am pc s m = Some (m', out, Await (At_exportData d x)) ->
     pc = At_loadExistingPaused d /\ s = Settle_paused (Resolved x) /\
     out = [Call_exportData x])
  /\
  (forall w mo t i cb x, ~ In (Call_dispose x) (snd (fst (construct w mo t i cb))))
  /\
  (forall w am mid pc s m e x,
     resumeLoad w am mid pc s m = Some e -> ~ In (Call_dispose x) (eff_out e))
  /\
  (forall w i M M' out err session x,
     step w i M = Some (M', out, err) ->
     swapped i M = Some session ->
     ~ In (Call_dispose x) out)
  /\
  (forall w mo t i cb M0 out0 err script M tr,
     construct w mo t i cb = (M0, out0, err) ->
     run script M0 = Some (M, tr) ->
     dispose_follows_exportData (out0 ++ tr)).
Proof.
  pose proof step_dispose as S1.
  split; [exact S1 |]. split; [exact resumeMigration_enters_exportData |].
  split; [| split; [| split]].
  - intros w mo t i cb x. unfold construct, install. cbn [fst snd].
    exact (dispatch_no_dispose _ _ _).
  - exact resumeLoad_no_dispose.
  - intros w i M M' out err session x H Hsw Hin.
    destruct (S1 _ _ _ _ _ _ _ H Hin) as (n & mt & am & d & data & rest & -> & _).
    discriminate Hsw.
  - intros w mo t i cb M0 out0 err script M tr Hc Hr.
    destruct (construct_dispose_follows _ _ _ _ _ _ _ _ Hc) as [D P].
    exact (run_dispose_follows _ _ _ _ _ (construct_inv _ _ _ _ _ _ _ _ Hc) P D Hr).
Qed.

Lemma dispose_witness :
  exists rest,
    snd (fst (install [] []
      (settleSegment 0 v2
         (transformAndImport migrating v2 detached1 5 42 attempting))))
    = Call_dispose 5 :: rest /\ filter is_dispose rest = [].
Proof.
  destruct (proj1 dispose_only_after_exportData migrating
              (Settle 0 (Settle_data (Resolved 42)))
              {| migrator := attempting; listeners := [];
                 tasks := [MigrationTask 0 v2 (At_exportData detached1 5)] |}
              _ _ _ 5 eq_refl (or_introl eq_refl))
    as (n & mt & am & d & data & rest & _ & _ & E & F).
  exists rest. split; [exact E | exact F].
Defined.

(** ** The attempt cache *)

Lemma dispatch_cache w m f :
  f Enter_takeAppropriateActionForCurrentMigratable = false ->
  f Emit_migrating = false ->
  (forall t ev, f (Once t ev) = false) ->
  (forall v, f (Call_supportsVersion v) = false) ->
  (forall t, f (Call_volunteerForMigration t) = false) ->
  f Console_error = false ->
  let e := takeAppropriateActionForCurrentMigratable w m in
  filter f (eff_out e) = [] /\ filter f (eff_out (caught e)) = [] /\
  _preparedDetachedModel (eff_m e) = _preparedDetachedModel m /\
  _preparedModelId (eff_m e) = _preparedModelId m.
Proof.
  intros F1 F2 F3 F4 F5 F6. cbv zeta.
  destruct (dispatch_dispatched w m); unfold caught; cbn;
    rewrite ?F1, ?F2, ?F3, ?F4, ?F5, ?F6; auto.
Qed.

Lemma step_cache w i M M' out err :
  machine_inv M ->
  step w i M = Some (M', out, err) ->
  let swap := swapped i M <> None /\ filter is_migrated out <> [] /\
              _preparedDetachedModel (migrator M') = None /\
              _preparedModelId (migrator M') = None in
  (forall d, _preparedDetachedModel (migrator M) = Some d ->
     filter is_prepare_call out = [] /\
     (_preparedDetachedModel (migrator M') = Some d \/ swap))
  /\
  (forall p, _preparedModelId (migrator M) = Some p ->
     filter is_attach out = [] /\
     (_preparedModelId (migrator M') = Some p \/ swap))
  /\
  (_preparedDetachedModel (migrator M) = None ->
   _preparedModelId (migrator M') = None)
  /\
  (filter is_migrated out = [] \/ swap).
Proof.
  intros I H. cbv zeta. pose proof I as [Hid _].
  destruct (enabled_input w i M _ I H)
    as [(l & -> & Hl & Ht & Hp & Hlp & E) | (t & s & e & -> & Hl & Ht & It & He & E)].
  - remember (takeAppropriateActionForCurrentMigratable w (migrator M)) as e0 eqn:Ee.
    injection E as -> -> _. cbn [install migrator fst]. subst e0.
    pose proof (dispatch_cache w (migrator M) is_prepare_call
                  eq_refl eq_refl (fun _ _ => eq_refl) (fun _ => eq_refl)
                  (fun _ => eq_refl) eq_refl) as (A1 & _ & A2 & A3).
    pose proof (dispatch_cache w (migrator M) is_attach
                  eq_refl eq_refl (fun _ _ => eq_refl) (fun _ => eq_refl)
                  (fun _ => eq_refl) eq_refl) as (B1 & _ & _ & _).
    pose proof (dispatch_cache w (migrator M) is_migrated
                  eq_refl eq_refl (fun _ _ => eq_refl) (fun _ => eq_refl)
                  (fun _ => eq_refl) eq_refl) as (C1 & _ & _ & _).
    cbv zeta in *. rewrite A2, A3.
    repeat split; auto.
    intros Hd. destruct (_preparedModelId (migrator M)); [| reflexivity].
    exfalso. apply Hid; [discriminate | exact Hd].
  - destruct t as [mt am pc | am mid pc].
    + destruct It as [Hlp It].
      destruct pc; cbn [resumeTask] in He.
      11: { destruct s; try discriminate. injection He as <-.
        unfold thenCallback in E.
        destruct (connected w (migrator M) && _) eqn:Hc.
        - injection E as -> -> _. cbn. repeat split; auto.
          intros Hd. destruct (_preparedModelId (migrator M)); [| reflexivity].
          exfalso. apply Hid; [discriminate | exact Hd].
        - remember (takeAppropriateActionForCurrentMigratable w
                      (set_migrationP None (migrator M))) as e0 eqn:Ee.
          remember (caught e0) as e1 eqn:Ee1.
          injection E as -> -> _. cbn [install migrator fst]. subst e1 e0.
          rewrite caught_fields.
          pose proof (dispatch_cache w (set_migrationP None (migrator M)) is_prepare_call
                  eq_refl eq_refl (fun _ _ => eq_refl) (fun _ => eq_refl)
                  (fun _ => eq_refl) eq_refl) as (_ & A1 & A2 & A3).
          pose proof (dispatch_cache w (set_migrationP None (migrator M)) is_attach
                  eq_refl eq_refl (fun _ _ => eq_refl) (fun _ => eq_refl)
                  (fun _ => eq_refl) eq_refl) as (_ & B1 & _ & _).
          pose proof (dispatch_cache w (set_migrationP None (migrator M)) is_migrated
                  eq_refl eq_refl (fun _ _ => eq_refl) (fun _ => eq_refl)
                  (fun _ => eq_refl) eq_refl) as (_ & C1 & _ & _).
          cbv zeta in *. rewrite A2, A3. cbn.
          repeat split; auto.
          intros Hd. destruct (_preparedModelId (migrator M)); [| reflexivity].
          exfalso. apply Hid; [discriminate | exact Hd]. }
      all: destruct (resumeMigration w mt am _ s (migrator M)) as [[[m1 out1] c]|] eqn:Hr;
        [| discriminate]; cbn [option_map] in He; injection He as <-.
      all: destruct s as [[?|]|[?|]|[?|]|[?|]|[?|]|[?|]|[?|]|]; cbn in Hr;
        try discriminate.
      all: unfold transformAndImport, afterPrepare, completeTheMigration,
             finishTheMigration in Hr.
      all: repeat break_if; inversion Hr; subst; clear Hr.
      all: injection E as -> -> _; cbn in *.
      all: repeat split; intros; auto; try congruence; try tauto.
      all: try (left; congruence).
      all: try (destruct (_preparedModelId (migrator M));
                [exfalso; apply Hid; [discriminate | tauto] | reflexivity]).
      all: exfalso; intuition congruence.
    + destruct It as [Hp Hlp].
      cbn [resumeTask] in He.
      destruct pc, s as [[b|]|[?|]|[?|]|[?|]|[?|]|[?|]|[[mo t']|]|]; cbn in He;
        try discriminate.
      * destruct b; cbn in He; injection He as <-; injection E as -> -> _; cbn;
          repeat split; auto;
          intros Hd; (destruct (_preparedModelId (migrator M));
                      [exfalso; apply Hid; [discriminate | exact Hd] | reflexivity]).
      * injection He as <-. injection E as -> -> _. cbn.
        repeat split; auto.
        intros Hd; (destruct (_preparedModelId (migrator M));
                      [exfalso; apply Hid; [discriminate | exact Hd] | reflexivity]).
      * injection He as <-.
        match type of E with
        | context [caught ?x] => remember (caught x) as e1 eqn:Ee1
        end.
        injection E as -> -> _. cbn [install migrator fst snd]. subst e1.
        rewrite caught_fields. cbn [after eff_m eff_out].
        match goal with
        | |- context [takeAppropriateActionForCurrentMigratable w ?m4] =>
          pose proof (dispatch_cache w m4 is_prepare_call
                  eq_refl eq_refl (fun _ _ => eq_refl) (fun _ => eq_refl)
                  (fun _ => eq_refl) eq_refl) as (A0 & A1 & A2 & A3);
          pose proof (dispatch_cache w m4 is_attach
                  eq_refl eq_refl (fun _ _ => eq_refl) (fun _ => eq_refl)
                  (fun _ => eq_refl) eq_refl) as (B0 & B1 & _ & _)
        end.
        cbv zeta in *. rewrite A2, A3.
        assert (Sw : swapped (Settle 0 (Settle_loaded (Resolved (mo, t'))))
                        M <> None) by (unfold swapped; rewrite Ht; discriminate).
        assert (Mg : forall e, filter is_migrated
                        (eff_out (caught (after [Emit_migrated mo mid] e))) <> []).
        { intros e0. unfold caught, after. destruct (eff_thrown e0); cbn; discriminate. }
        assert (P1 : forall f e, f (Emit_migrated mo mid) = false ->
                       f Console_error = false ->
                       filter f (eff_out (caught e)) = [] ->
                       filter f (eff_out (caught (after [Emit_migrated mo mid] e))) = []).
        { intros f e0 F1 F2. unfold caught, after. destruct (eff_thrown e0); cbn;
            rewrite ?F1; auto. }
        repeat split; intros; auto.
        all: right; repeat split; auto.
      * injection He as <-. injection E as -> -> _. cbn.
        repeat split; auto.
        intros Hd; (destruct (_preparedModelId (migrator M));
                      [exfalso; apply Hid; [discriminate | exact Hd] | reflexivity]).
Qed.

Lemma run_reachable script : forall M M' out,
  reachable M -> run script M = Some (M', out) -> reachable M'.
Proof.
  induction script as [| [w i] script IH]; intros M M' out R H; cbn in H.
  - injection H as <- _. exact R.
  - destruct (step w i M) as [[[M1 out1] err]|] eqn:Hs; [| discriminate].
    destruct (run script M1) as [[M2 out2]|] eqn:Hr; [| discriminate].
    injection H as <- _.
    exact (IH _ _ _ (reachable_step _ _ _ _ _ _ R Hs) Hr).
Qed.

Lemma filter_nil_app {A} (f : A -> bool) l1 l2 :
  filter f (l1 ++ l2) = [] <-> filter f l1 = [] /\ filter f l2 = [].
Proof.
  rewrite filter_app. split.
  - intros H. apply app_eq_nil in H. exact H.
  - intros [-> ->]. reflexivity.
Qed.

Lemma run_cache script : forall M M' tr,
  machine_inv M ->
  run script M = Some (M', tr) ->
  filter is_migrated tr = [] ->
  (forall d, _preparedDetachedModel (migrator M) = Some d ->
     filter is_prepare_call tr = [] /\ _preparedDetachedModel (migrator M') = Some d)
  /\
  (forall p, _preparedModelId (migrator M) = Some p ->
     filter is_attach tr = [] /\ _preparedModelId (migrator M') = Some p).
Proof.
  induction script as [| [w i] script IH]; intros M M' tr I H Hm; cbn in H.
  - injection H as <- <-. split; intros; split; auto.
  - destruct (step w i M) as [[[M1 out1] err]|] eqn:Hs; [| discriminate].
    destruct (run script M1) as [[M2 out2]|] eqn:Hr; [| discriminate].
    injection H as <- <-.
    apply filter_nil_app in Hm as [Hm1 Hm2].
    pose proof (step_cache _ _ _ _ _ _ I Hs) as (S1 & S2 & _ & _). cbv zeta in S1, S2.
    destruct (IH _ _ _ (step_inv _ _ _ _ _ _ I Hs) Hr Hm2) as [R1 R2].
    split.
    + intros d Hd. destruct (S1 d Hd) as [F [K | (_ & N & _)]]; [| congruence].
      destruct (R1 d K) as [F' K']. split; [| exact K'].
      apply filter_nil_app. auto.
    + intros p Hp. destruct (S2 p Hp) as [F [K | (_ & N & _)]]; [| congruence].
      destruct (R2 p K) as [F' K']. split; [| exact K'].
      apply filter_nil_app. auto.
Qed.

(** C3. Cache monotonicity.  (1) When [ensureMigrating] is entered with a
    prepared model, [doTheMigration] goes straight to the check that follows
    the prepare phase, and calls nothing of that phase, not even
    [supportsVersion].  (2) For every machine the orchestrator can be in,
    once [_preparedDetachedModel] is set, then in any run from there that
    emits no [migrated] notification (no session swap), the field stays as
    it is and [createDetached], [loadExistingPaused], [exportData],
    [dispose], [supportsDataFormat], the transform callback and [importData]
    are never called; and once [_preparedModelId] is set, the field stays as
    it is and [attach] is never called.  (3) A step that changes either
    field from set to something else is the session swap of the load
    executor, it emits [migrated], and it clears both.  (4)
    [_preparedModelId] is only ever set in a step that starts with
    [_preparedDetachedModel] set, and is never held without it. *)
Theorem cache_monotonicity :
  (forall w am m d,
     _preparedDetachedModel m = Some d ->
     doTheMigration w am m = afterPrepare w m /\
     filter is_prepare_call (eff_out (ensureMigrating w m)) = [] /\
     forall v, ~ In (Call_supportsVersion v) (eff_out (ensureMigrating w m)))
  /\
  (forall script M M' tr,
     reachable M ->
     run script M = Some (M', tr) ->
     filter is_migrated tr = [] ->
     (forall d, _preparedDetachedModel (migrator M) = Some d ->
        filter is_prepare_call tr = [] /\ _preparedDetachedModel (migrator M') = Some d)
     /\
     (forall p, _preparedModelId (migrator M) = Some p ->
        filter is_attach tr = [] /\ _preparedModelId (migrator M') = Some p))
  /\
  (forall w i M M' out err,
     reachable M ->
     step w i M = Some (M', out, err) ->
     (forall d, _preparedDetachedModel (migrator M) = Some d ->
                _preparedDetachedModel (migrator M') <> Some d ->
        swapped i M <> None /\ filter is_migrated out <> [] /\
        _preparedDetachedModel (migrator M') = None /\
        _preparedModelId (migrator M') = None)
     /\
     (forall p, _preparedModelId (migrator M) = Some p ->
                _preparedModelId (migrator M') <> Some p ->
        swapped i M <> None /\ filter is_migrated out <> [] /\
        _preparedDetachedModel (migrator M') = None /\
        _preparedModelId (migrator M') = None)
     /\
     (_preparedModelId (migrator M) = None ->
      _preparedModelId (migrator M') <> None ->
      _preparedDetachedModel (migrator M) <> None))
  /\
  (forall M,
     reachable M ->
     _preparedModelId (migrator M) <> None ->
     _preparedDetachedModel (migrator M) <> None).
Proof.
  split; [| split; [| split]].
  - intros w am m d Hd. split; [unfold doTheMigration; rewrite Hd; reflexivity |].
    unfold ensureMigrating, doTheMigration, afterPrepare, completeTheMigration.
    rewrite Hd.
    destruct (negb (connected w m)); [cbn; intuition discriminate |].
    destruct (isSome (_migrationP m)); [cbn; intuition discriminate |].
    destruct (isSome (_migratedLoadP m)); [cbn; intuition discriminate |].
    destruct (Tool.acceptedMigration _); [| cbn; intuition discriminate].
    destruct (negb _); cbn; intuition discriminate.
  - intros script M M' tr R. apply run_cache. exact (reachable_inv _ R).
  - intros w i M M' out err R H.
    pose proof (step_cache _ _ _ _ _ _ (reachable_inv _ R) H) as (S1 & S2 & S3 & _).
    cbv zeta in S1, S2. split; [| split].
    + intros d Hd N. destruct (S1 d Hd) as [_ [K | K]]; [congruence | tauto].
    + intros p Hp N. destruct (S2 p Hp) as [_ [K | K]]; [congruence | tauto].
    + intros Hn N Hd. apply N. exact (S3 Hd).
  - intros M R. exact (proj1 (reachable_inv _ R)).
Qed.

Lemma prepared_machine_reachable : reachable prepared_machine.
Proof.
  destruct (run (firstn 6 happy) started) as [[M tr]|] eqn:E;
    [| vm_compute in E; discriminate].
  assert (R : reachable started).
  { eapply reachable_construct with (w := collaborating) (mo := 1) (t := 0)
      (i := "old") (cb := None). reflexivity. }
  pose proof (run_reachable _ _ _ _ R E) as R'.
  unfold prepared_machine. rewrite E. exact R'.
Qed.

Lemma cache_monotonicity_witness :
  exists M' tr,
    run retry prepared_machine = Some (M', tr) /\
    filter is_prepare_call tr = [] /\
    _preparedDetachedModel (migrator M') = Some detached1.
Proof.
  destruct (run retry prepared_machine) as [[M' tr]|] eqn:E;
    [| vm_compute in E; discriminate].
  exists M', tr. split; [reflexivity |].
  assert (F : filter is_migrated tr = []).
  { vm_compute in E. injection E as _ <-. reflexivity. }
  exact (proj1 (proj1 (proj2 cache_monotonicity) retry prepared_machine M' tr
                  prepared_machine_reachable E F) detached1 eq_refl).
Defined.

(** ** The end of a migration attempt *)


Lemma resumeMigration_marker w mt am pc s m m' out c :
  resumeMigration w mt am pc s m = Some (m', out, c) ->
  ~ In Enter_takeAppropriateActionForCurrentMigratable out /\
  ((forall v, ~ In (Emit_migrationNotSupported v) out) /\ _migrationP m' = _migrationP m
   \/
   In (Emit_migrationNotSupported (newVersion am)) out /\
   (forall v, In (Emit_migrationNotSupported v) out -> v = newVersion am) /\
   _migrationP m' = None /\ c = Await At_prepareTheMigration).
Proof.
  intros H.
  destruct pc, s as [[?|]|[?|]|[?|]|[?|]|[?|]|[?|]|[?|]|]; cbn in H; try discriminate;
    unfold transformAndImport, afterPrepare, completeTheMigration,
      finishTheMigration in H;
    repeat break_if; inversion H; subst; clear H; cbn;
    (split; [intuition discriminate |]);
    first [ left; split; [intros v; intuition discriminate | reflexivity]
          | right; repeat split; auto 6;
            intros v Hv;
            repeat match goal with
                   | H : _ \/ _ |- _ => destruct H
                   | H : False |- _ => destruct H
                   | H : @eq Action _ _ |- _ =>
                       first [discriminate H | injection H as <-; reflexivity]
                   end ].
Qed.



(** ** A rejected attempt *)

(** C10, as stated, fails on its own example: after an abandoned prepare
    (here: the successor does not accept the exported format and there is no
    transform callback) the finalize phase finds no prepared model and the
    attempt promise rejects, but [_migrationP] is not left defined, because
    the prepare phase cleared it when it gave up; a later [ensureMigrating]
    is then no no-op, it starts a new attempt. *)
Lemma rejection_after_abandoned_prepare_leaves_marker_undefined :
  exists M1 tr1 M2,
    run no_transform started = Some (M1, tr1) /\
    tasks M1 = [MigrationTask 0 v2 At_prepareTheMigration] /\
    resumeMigration migrating_foreign 0 v2 At_prepareTheMigration Tick (migrator M1)
      = Some (migrator M1, [],
              Throw (AssertionError "this._preparedDetachedModel should be defined")) /\
    step migrating_foreign (Settle 0 Tick) M1 = Some (M2, [Console_error], None) /\
    _migrationP (migrator M2) = None /\
    eff_out (ensureMigrating migrating_foreign (migrator M2))
      = [Emit_migrating; Call_supportsVersion "v2"].
Proof.
  do 3 eexists. split; [vm_compute; reflexivity |]. repeat split.
Qed.

Lemma stuck_machine w i M :
  tasks M = [] -> listeners M = [] -> step w i M = None.
Proof.
  intros Ht Hl. destruct i as [n | n s]; cbn; rewrite ?Ht, ?Hl; destruct n; reflexivity.
Qed.

(** C10, amended.  In any machine the orchestrator can be in, when a
    stretch of [doTheMigration] throws (an awaited promise rejected, or an
    assertion failed), the rejection is consumed by [.catch(console.error)]:
    nothing is thrown to anyone, the [.then] callback does not run and the
    dispatcher is not entered, and nothing is left pending, so the
    orchestrator takes no further step.  The stretch leaves [_migrationP] as
    it found it; at every program point but the resumption after the prepare
    phase that is defined.  While [_migrationP] is defined, every
    [ensureMigrating] while connected is a no-op.  Likewise a rejected await
    of [doTheLoad] is consumed and leaves [_migratedLoadP] defined, and
    every [ensureLoading] is then a no-op. *)
Theorem rejected_attempt_is_consumed (w : World) (n : nat) (s : Settlement)
    (M M' : Machine) (out : list Action) (err : option Error) :
  reachable M ->
  step w (Settle n s) M = Some (M', out, err) ->
  (forall mt am pc m' out' e,
     nth_error (tasks M) n = Some (MigrationTask mt am pc) ->
     resumeMigration w mt am pc s (migrator M) = Some (m', out', Throw e) ->
     out = out' ++ [Console_error] /\ err = None /\
     ~ In Enter_takeAppropriateActionForCurrentMigratable out /\
     tasks M' = [] /\ listeners M' = [] /\
     (forall w' i, step w' i M' = None) /\
     _migrationP (migrator M') = _migrationP (migrator M) /\
     (pc <> At_prepareTheMigration -> _migrationP (migrator M') = Some Pending) /\
     (_migrationP (migrator M') <> None ->
      forall w', connected w' (migrator M') = true ->
                 ensureMigrating w' (migrator M') = done (migrator M') [] None))
  /\
  (forall am mid pc,
     nth_error (tasks M) n = Some (LoadTask am mid pc) ->
     (s = Settle_bool Rejected \/ s = Settle_loaded Rejected) ->
     out = [Console_error] /\ err = None /\
     tasks M' = [] /\ listeners M' = [] /\
     (forall w' i, step w' i M' = None) /\
     _migratedLoadP (migrator M') = Some Pending /\
     forall w', ensureLoading w' (migrator M') = done (migrator M') [] None).
Proof.
  intros R H. pose proof (reachable_inv _ R) as I.
  destruct (enabled_input _ _ _ _ I H)
    as [(l & E & _) | (t & s' & e' & Ei & Hl & Ht & It & He & E)]; [discriminate |].
  injection Ei as -> <-. rewrite Ht. split.
  - intros mt am pc m' out' e Hn Hr. injection Hn as ->.
    destruct It as [Hlp It].
    assert (He' : e' = done m' (out' ++ [Console_error]) None).
    { destruct pc; cbn [resumeTask] in He; try (rewrite Hr in He; cbn in He; congruence).
      destruct s; discriminate. }
    subst e'. injection E as -> -> ->. cbn [install migrator tasks listeners fst done
                                         eff_m eff_out eff_task option_list app].
    destruct (resumeMigration_marker _ _ _ _ _ _ _ _ _ Hr)
      as [NoE [[_ Hp] | (_ & _ & _ & C)]]; [| discriminate C].
    assert (Rg : registered (out' ++ [Console_error]) = []).
    { clear - Hr.
      destruct pc, s as [[?|]|[?|]|[?|]|[?|]|[?|]|[?|]|[?|]|]; cbn in Hr;
        try discriminate;
        unfold transformAndImport, afterPrepare, completeTheMigration,
          finishTheMigration in Hr;
        repeat break_if; inversion Hr; subst; reflexivity. }
    rewrite Rg.
    split; [reflexivity |]. split; [reflexivity |].
    split.
    { intros Hin. apply in_app_or in Hin as [Hin | [Hin | []]];
        [exact (NoE Hin) | discriminate]. }
    split; [reflexivity |]. split; [reflexivity |].
    split; [intros w' i; apply stuck_machine; reflexivity |].
    split; [exact Hp |].
    split.
    { intros Hpc. rewrite Hp. destruct pc; try tauto; try (intuition congruence).
      destruct s as [[?|]|[?|]|[?|]|[?|]|[?|]|[?|]|[?|]|]; discriminate Hr. }
    intros Hdef w' Hc. unfold ensureMigrating. rewrite Hc. cbn [negb].
    destruct (_migrationP m'); [reflexivity | congruence].
  - intros am mid pc Hn Hs. injection Hn as ->. destruct It as [Hp Hlp].
    cbn [resumeTask] in He.
    assert (He' : e' = done (migrator M) [Console_error] None).
    { destruct Hs as [-> | ->], pc; cbn in He; congruence. }
    subst e'. injection E as -> -> ->. cbn.
    split; [reflexivity |]. split; [reflexivity |].
    split; [reflexivity |]. split; [reflexivity |].
    split; [intros w' i; apply stuck_machine; reflexivity |].
    split; [exact Hlp |].
    intros w'. unfold ensureLoading. rewrite Hlp. reflexivity.
Qed.

Lemma creating_machine_reachable : reachable creating_machine.
Proof.
  destruct (run (firstn 2 happy) started) as [[M tr]|] eqn:E;
    [| vm_compute in E; discriminate].
  assert (R : reachable started).
  { eapply reachable_construct with (w := collaborating) (mo := 1) (t := 0)
      (i := "old") (cb := None). reflexivity. }
  pose proof (run_reachable _ _ _ _ R E) as R'.
  unfold creating_machine. rewrite E. exact R'.
Qed.

Lemma rejected_attempt_witness :
  exists M',
    step migrating (Settle 0 (Settle_detached Rejected)) creating_machine
      = Some (M', [Console_error], None) /\
    _migrationP (migrator M') = Some Pending /\
    forall w' i, step w' i M' = None.
Proof.
  destruct (step migrating (Settle 0 (Settle_detached Rejected)) creating_machine)
    as [[[M' out] err]|] eqn:E; [| vm_compute in E; discriminate].
  destruct (proj1 (rejected_attempt_is_consumed migrating 0 (Settle_detached Rejected)
                     creating_machine M' out err creating_machine_reachable E)
              0 v2 At_createDetached (migrator creating_machine) [] Rejection
              eq_refl eq_refl)
    as (Ho & Herr & _ & _ & _ & Hstuck & _ & Hp & _).
  exists M'. cbn [app] in Ho. subst out err.
  split; [reflexivity |]. split; [apply Hp; discriminate | exact Hstuck].
Defined.

(** ** At most one operation in flight *)

Lemma resumeMigration_keeps_load_marker w mt am pc s m m' out c :
  resumeMigration w mt am pc s m = Some (m', out, c) ->
  _migratedLoadP m' = _migratedLoadP m.
Proof.
  intros H.
  destruct pc, s as [[?|]|[?|]|[?|]|[?|]|[?|]|[?|]|[?|]|]; cbn in H; try discriminate;
    unfold transformAndImport, afterPrepare, completeTheMigration,
      finishTheMigration in H;
    repeat break_if; inversion H; subst; reflexivity.
Qed.

Lemma dispatched_exclusive w m e :
  dispatched w m e ->
  _migrationP m = None \/ _migratedLoadP m = None ->
  _migrationP (eff_m e) = None \/ _migratedLoadP (eff_m e) = None.
Proof. intros D H. destruct D; cbn; auto. Qed.

Lemma step_exclusive w i M M' out err :
  machine_inv M ->
  step w i M = Some (M', out, err) ->
  _migrationP (migrator M') = None \/ _migratedLoadP (migrator M') = None.
Proof.
  intros I H.
  destruct (enabled_input w i M _ I H)
    as [(l & -> & Hl & Ht & Hp & Hlp & E) | (t & s & e & -> & Hl & Ht & It & He & E)].
  - remember (takeAppropriateActionForCurrentMigratable w (migrator M)) as e0 eqn:Ee.
    injection E as -> _ _. cbn [install migrator fst]. subst e0.
    apply (dispatched_exclusive w (migrator M)); [apply dispatch_dispatched | auto].
  - remember e as e0 eqn:Ee. injection E as -> _ _. cbn [install migrator fst]. subst e0.
    destruct t as [mt am pc | am mid pc].
    + destruct It as [Hlp It].
      destruct pc; cbn [resumeTask] in He.
      11: { destruct s; try discriminate. injection He as <-.
        unfold thenCallback. destruct (connected w (migrator M) && _).
        - cbn. auto.
        - rewrite caught_fields.
          apply (dispatched_exclusive w (set_migrationP None (migrator M)));
            [apply dispatch_dispatched | left; reflexivity]. }
      all: destruct (resumeMigration w mt am _ s (migrator M)) as [[[m1 out1] c]|] eqn:Hr;
        [| discriminate]; cbn [option_map] in He; injection He as <-.
      all: right; destruct c; cbn [eff_m done];
        rewrite (resumeMigration_keeps_load_marker _ _ _ _ _ _ _ _ _ Hr); exact Hlp.
    + destruct It as [Hp Hlp]. cbn [resumeTask] in He.
      destruct pc, s as [[b|]|[?|]|[?|]|[?|]|[?|]|[?|]|[[mo t']|]|]; cbn in He;
        try discriminate.
      * destruct b; injection He as <-; cbn; auto.
      * injection He as <-. cbn. auto.
      * injection He as <-. rewrite caught_fields. cbn [after eff_m].
        match goal with
        | |- context [takeAppropriateActionForCurrentMigratable w ?m4] =>
            apply (dispatched_exclusive w m4); [apply dispatch_dispatched | left; exact Hp]
        end.
      * injection He as <-. cbn. auto.
Qed.

(** X1.  For every machine the orchestrator can be in: at most one thing is
    pending (one registered listener or one suspended attempt), the two
    in-flight markers are never both defined, a suspended migration attempt
    excludes a load in flight, and a suspended load has its own marker
    defined and excludes a migration attempt in flight. *)
Theorem at_most_one_in_flight (M : Machine) :
  reachable M ->
  List.length (tasks M) + List.length (listeners M) <= 1 /\
  (_migrationP (migrator M) = None \/ _migratedLoadP (migrator M) = None) /\
  (forall t, In t (tasks M) ->
     match t with
     | MigrationTask _ _ _ => _migratedLoadP (migrator M) = None
     | LoadTask _ _ _ =>
         _migrationP (migrator M) = None /\ _migratedLoadP (migrator M) = Some Pending
     end).
Proof.
  intros R. pose proof (reachable_inv _ R) as [_ I].
  split; [| split].
  - destruct (tasks M) as [| t [| t' ts]], (listeners M) as [| l [| l' ls]];
      cbn; try contradiction; lia.
  - destruct R as [w mo t i cb M out err H | w i M M' out err R H].
    + unfold construct in H.
      match type of H with
      | install [] [] (takeAppropriateActionForCurrentMigratable ?w ?m) = _ =>
          remember (takeAppropriateActionForCurrentMigratable w m) as e0 eqn:Ee;
          injection H as <- _ _; cbn [install migrator fst]; subst e0;
          apply (dispatched_exclusive w m); [apply dispatch_dispatched | left; reflexivity]
      end.
    + exact (step_exclusive _ _ _ _ _ _ (reachable_inv _ R) H).
  - intros t Hin.
    destruct (tasks M) as [| t0 [| t' ts]], (listeners M) as [| l [| l' ls]];
      try contradiction; try (destruct Hin; fail).
    destruct Hin as [<- | []]. destruct t0; cbn in I; tauto.
Qed.

Lemma at_most_one_in_flight_witness :
  List.length (tasks prepared_machine) + List.length (listeners prepared_machine) <= 1 /\
  (_migrationP (migrator prepared_machine) = None \/
   _migratedLoadP (migrator prepared_machine) = None).
Proof.
  destruct (at_most_one_in_flight prepared_machine prepared_machine_reachable)
    as (A & B & _).
  split; [exact A | exact B].
Defined.

(** ** The steps of the machine, case by case *)

Lemma registered_caught e : registered (eff_out (caught e)) = registered (eff_out e).
Proof.
  unfold caught. destruct (eff_thrown e); [| reflexivity].
  cbn. rewrite registered_app. cbn. apply app_nil_r.
Qed.

Lemma dispatched_caught w m e :
  dispatched w m e ->
  eff_m (caught e) = eff_m e /\ eff_task (caught e) = eff_task e /\
  eff_thrown (caught e) = None.
Proof. intros D. destruct D; cbn; auto. Qed.

Lemma resumeMigration_registered w mt am pc s m m1 out1 c :
  resumeMigration w mt am pc s m = Some (m1, out1, c) ->
  registered out1 = [].
Proof.
  intros H.
  destruct pc, s as [[?|]|[?|]|[?|]|[?|]|[?|]|[?|]|[?|]|]; cbn in H; try discriminate;
    unfold transformAndImport, afterPrepare, completeTheMigration,
      finishTheMigration in H;
    repeat break_if; inversion H; subst; reflexivity.
Qed.

(** Every step of a machine that satisfies the invariant is one of the
    cases of [stepped]. *)
Lemma step_stepped w i M M' out err :
  machine_inv M ->
  step w i M = Some (M', out, err) ->
  stepped w M i M' out err.
Proof.
  intros I H.
  destruct (enabled_input w i M _ I H)
    as [(l & -> & Hl & Ht & Hp & Hlp & E) | (t & s & e & -> & Hl & Ht & It & He & E)].
  - remember (takeAppropriateActionForCurrentMigratable w (migrator M)) as e0 eqn:Ee.
    unfold install in E. cbn [app] in E. injection E as -> -> ->.
    apply (stepped_fire w M l e0 Hl Ht Hp Hlp Ee). subst e0. apply dispatch_dispatched.
  - remember e as e0 eqn:Ee.
    unfold install in E. cbn [app] in E. injection E as -> -> ->. subst e0.
    destruct t as [mt am pc | am mid pc].
    + pose proof It as [Hlp _].
      assert (Hpc : pc = At_then \/ pc <> At_then)
        by (destruct pc; (left; reflexivity) || (right; discriminate)).
      destruct Hpc as [-> | Hpc].
      * cbn [resumeTask] in He. destruct s; try discriminate. injection He as <-.
        unfold thenCallback.
        destruct (connected w (migrator M)) eqn:Hc;
          [destruct (Tool.newContainerId (tool w (currentMigrationTool (migrator M))))
             eqn:Hn |]; cbn [andb negb isSome].
        -- pose proof (dispatch_dispatched w (set_migrationP None (migrator M))) as D.
           pose proof (stepped_then w M mt am _ Hl Ht Hlp
                         ltac:(right; congruence) eq_refl D) as S.
           destruct (dispatched_caught _ _ _ D) as (E1 & E2 & E3).
           unfold settled in S.
           rewrite <- E1, <- E2, <- registered_caught in S. rewrite E3.
           exact S.
        -- exact (stepped_then_assert w M mt am Hl Ht Hlp Hc Hn).
        -- pose proof (dispatch_dispatched w (set_migrationP None (migrator M))) as D.
           pose proof (stepped_then w M mt am _ Hl Ht Hlp (or_introl Hc) eq_refl D) as S.
           destruct (dispatched_caught _ _ _ D) as (E1 & E2 & E3).
           unfold settled in S.
           rewrite <- E1, <- E2, <- registered_caught in S. rewrite E3.
           exact S.
      * assert (He' : option_map (settleSegment mt am)
                        (resumeMigration w mt am pc s (migrator M)) = Some e)
          by (destruct pc; try exact He; contradiction Hpc; reflexivity).
        destruct (resumeMigration w mt am pc s (migrator M)) as [[[m1 out1] c]|] eqn:Hr;
          [| discriminate].
        cbn [option_map] in He'. injection He' as <-.
        pose proof (stepped_segment w M mt am pc s m1 out1 c Hl Ht It Hr) as S.
        destruct c; exact S.
    + cbn [resumeTask] in He.
      destruct pc, s as [[b|]|[?|]|[?|]|[?|]|[?|]|[?|]|[[mo t']|]|]; cbn in He;
        try discriminate.
      * destruct b; cbn in He; injection He as <-; cbn.
        -- exact (stepped_load_supported w M am mid Hl Ht It).
        -- exact (stepped_load_unsupported w M am mid Hl Ht It).
      * injection He as <-. cbn.
        exact (stepped_load_rejected w M am mid _ _ Hl Ht It
                 ltac:(left; split; reflexivity)).
      * injection He as <-.
        pose proof (dispatch_dispatched w (loaded mo t' mid (migrator M))) as D.
        pose proof (stepped_swap w M am mid mo t' _ Hl Ht It eq_refl D) as S.
        destruct (dispatched_caught _ _ _ D) as (E1 & E2 & E3).
        unfold settled in S.
        remember (takeAppropriateActionForCurrentMigratable w
                    (loaded mo t' mid (migrator M))) as e0 eqn:Ee.
        assert (K : caught (after [Emit_migrated mo mid] e0) =
                    after [Emit_migrated mo mid] (caught e0)).
        { unfold caught, after. cbn.
          destruct (eff_thrown e0) eqn:Et; cbn; rewrite ?Et; reflexivity. }
        unfold loaded in Ee. rewrite <- Ee, K. cbn [after eff_m eff_out eff_task eff_thrown app].
        rewrite E1, E2, E3.
        assert (R : registered (Emit_migrated mo mid :: eff_out (caught e0)) =
                    registered (eff_out e0)) by (cbn; apply registered_caught).
        rewrite R. exact S.
      * injection He as <-. cbn.
        exact (stepped_load_rejected w M am mid _ _ Hl Ht It
                 ltac:(right; split; reflexivity)).
Qed.

Lemma reachable_stepped w i M M' out err :
  reachable M ->
  step w i M = Some (M', out, err) ->
  stepped w M i M' out err.
Proof. intros R. apply step_stepped, reachable_inv, R. Qed.

(** ** The tool an interaction is with *)

Lemma dispatch_listeners w m :
  let e := takeAppropriateActionForCurrentMigratable w m in
  registered (eff_out e) = [] \/
  registered (eff_out e) = [(currentMigrationTool m, "migrating")] \/
  registered (eff_out e) = [(currentMigrationTool m, "connected")].
Proof.
  cbv zeta.
  unfold takeAppropriateActionForCurrentMigratable, after, ensureMigrating, ensureLoading,
    doTheMigration, afterPrepare, completeTheMigration, prepareTheMigration, doTheLoad.
  repeat match goal with
         | |- context [if ?b then _ else _] => destruct b
         | |- context [match ?x with _ => _ end] => destruct x
         end; cbn; auto.
Qed.

Lemma dispatched_bound w m e :
  e = takeAppropriateActionForCurrentMigratable w m ->
  dispatched w m e ->
  bound_to_current_tool (settled e).
Proof.
  intros E D. split.
  - intros t ev Hin. unfold settled in *. cbn [listeners migrator] in *.
    assert (S : _currentMigratable (eff_m e) = _currentMigratable m)
      by (subst e; apply dispatch_keeps_session).
    unfold currentMigrationTool. rewrite S.
    pose proof (dispatch_listeners w m) as L. cbv zeta in L. rewrite <- E in L.
    destruct L as [L | [L | L]]; rewrite L in Hin; [destruct Hin | |];
      destruct Hin as [Hin | []]; injection Hin as <- <-; auto.
  - clear E. intros mt am pc Hin.
    destruct D; cbn in Hin; try contradiction;
      destruct Hin as [Hin | []]; try discriminate;
      injection Hin as <- _ _; reflexivity.
Qed.

Lemma step_bound w i M M' out err :
  machine_inv M ->
  bound_to_current_tool M ->
  step w i M = Some (M', out, err) ->
  bound_to_current_tool M'.
Proof.
  intros I [_ B] H.
  destruct (step_stepped _ _ _ _ _ _ I H)
    as [l e Hl Ht Hp Hlp Ee D
       | mt am pc s m1 out1 c Hl Ht It Hr
       | mt am Hl Ht Hlp Hc Hn
       | mt am e Hl Ht Hlp Hc Ee D
       | am mid Hl Ht It
       | am mid Hl Ht It
       | am mid pc s Hl Ht It Hs
       | am mid mo t e Hl Ht It Ee D].
  - exact (dispatched_bound _ _ _ Ee D).
  - assert (Hmt : mt = currentMigrationTool (migrator M))
      by (apply (B mt am pc); rewrite Ht; left; reflexivity).
    pose proof (resumeMigration_keeps_session _ _ _ _ _ _ _ _ _ Hr) as S.
    pose proof (resumeMigration_registered _ _ _ _ _ _ _ _ _ Hr) as R.
    split.
    + intros t ev Hin. unfold settled in Hin. cbn [listeners] in Hin.
      destruct c; cbn in Hin; rewrite ?registered_app, ?R in Hin; destruct Hin.
    + intros mt' am' pc' Hin. unfold settled in *. cbn [tasks migrator] in *.
      rewrite settleSegment_fields. cbn [fst].
      unfold currentMigrationTool. rewrite S.
      destruct c; cbn in Hin; try contradiction;
        destruct Hin as [Hin | []]; injection Hin as <- _ _; exact Hmt.
  - split; cbn; intros; contradiction.
  - exact (dispatched_bound _ _ _ Ee D).
  - split; cbn; intros; contradiction.
  - split; cbn.
    + intros; contradiction.
    + intros mt am' pc [Hin | []]. discriminate.
  - split; cbn; intros; contradiction.
  - exact (dispatched_bound _ _ _ Ee D).
Qed.

Lemma construct_bound w mo t i cb M out err :
  construct w mo t i cb = (M, out, err) -> bound_to_current_tool M.
Proof.
  unfold construct, install. cbn [app]. intros H.
  match type of H with
  | context [takeAppropriateActionForCurrentMigratable w ?m] =>
      pose proof (dispatched_bound w m _ eq_refl (dispatch_dispatched w m)) as B;
      remember (takeAppropriateActionForCurrentMigratable w m) as e0 eqn:Ee
  end.
  injection H as <- _ _. exact B.
Qed.

Lemma reachable_bound M : reachable M -> bound_to_current_tool M.
Proof.
  induction 1 as [w mo t i cb M out err H | w i M M' out err R IH H].
  - exact (construct_bound _ _ _ _ _ _ _ _ H).
  - exact (step_bound _ _ _ _ _ _ (reachable_inv _ R) IH H).
Qed.

Lemma dispatched_tool_of w m e a t :
  dispatched w m e ->
  In a (eff_out (caught e)) -> tool_of a = Some t ->
  t = currentMigrationTool (eff_m e).
Proof.
  intros D Hin Ha.
  destruct D; cbn in Hin;
    repeat (destruct Hin as [<- | Hin]; [cbn in Ha; try discriminate |]);
    try contradiction; try (injection Ha as <-; reflexivity).
Qed.

Lemma resumeMigration_tool_of w mt am pc s m m1 out1 c a t :
  resumeMigration w mt am pc s m = Some (m1, out1, c) ->
  mt = currentMigrationTool m ->
  In a out1 -> tool_of a = Some t ->
  t = currentMigrationTool m1.
Proof.
  intros H Hmt Hin Ha.
  destruct pc, s as [[?|]|[?|]|[?|]|[?|]|[?|]|[?|]|[?|]|]; cbn in H; try discriminate;
    unfold transformAndImport, afterPrepare, completeTheMigration,
      finishTheMigration in H;
    repeat break_if; inversion H; subst; clear H; cbn in Hin;
    repeat (destruct Hin as [<- | Hin]; [cbn in Ha; try discriminate |]);
    try contradiction; try (injection Ha as <-; reflexivity).
Qed.

Lemma resumeMigration_finalize_id w mt am pc s m m1 out1 c t x :
  resumeMigration w mt am pc s m = Some (m1, out1, c) ->
  In (Call_finalizeMigration t x) out1 ->
  _preparedModelId m1 = Some x.
Proof.
  intros H Hin.
  destruct pc, s as [[?|]|[?|]|[?|]|[?|]|[?|]|[?|]|[?|]|]; cbn in H; try discriminate;
    unfold transformAndImport, afterPrepare, completeTheMigration,
      finishTheMigration in H;
    repeat break_if; inversion H; subst; clear H; cbn in Hin;
    repeat (destruct Hin as [Hin | Hin]; [try discriminate |]);
    try contradiction; injection Hin as _ <-; try assumption; reflexivity.
Qed.

(** X2.  The orchestrator only ever deals with the migration tool of its
    current session.  In every machine it can be in, a registered listener
    is on the current tool, for [migrating] or [connected], and a suspended
    migration attempt captured the current tool as its [migrationTool]
    (line 143); so in every step each listener registration and each tool
    call ([volunteerForMigration], [haveMigrationTask], [finalizeMigration],
    [completeMigrationTask]) is on the tool that is current after the
    step, and [finalizeMigration] is given the id held in
    [_preparedModelId]. *)
Theorem tool_interactions_are_with_the_current_tool (M : Machine) :
  reachable M ->
  bound_to_current_tool M /\
  forall w i M' out err,
    step w i M = Some (M', out, err) ->
    (forall a t, In a out -> tool_of a = Some t ->
       t = currentMigrationTool (migrator M')) /\
    (forall t x, In (Call_finalizeMigration t x) out ->
       _preparedModelId (migrator M') = Some x).
Proof.
  intros R. pose proof (reachable_bound _ R) as B. split; [exact B |].
  destruct B as [_ B].
  intros w i M' out err H.
  destruct (reachable_stepped _ _ _ _ _ _ R H)
    as [l e Hl Ht Hp Hlp Ee D
       | mt am pc s m1 out1 c Hl Ht It Hr
       | mt am Hl Ht Hlp Hc Hn
       | mt am e Hl Ht Hlp Hc Ee D
       | am mid Hl Ht It
       | am mid Hl Ht It
       | am mid pc s Hl Ht It Hs
       | am mid mo t e Hl Ht It Ee D].
  - split.
    + intros a t Hin Ha. apply (dispatched_tool_of _ _ _ a _ D); [| exact Ha].
      unfold caught. destruct (eff_thrown e); [| exact Hin].
      cbn. apply in_or_app. left. exact Hin.
    + intros t x Hin. clear Ee. destruct D; cbn in Hin;
        repeat (destruct Hin as [Hin | Hin]; [discriminate |]); contradiction.
  - assert (Hmt : mt = currentMigrationTool (migrator M))
      by (apply (B mt am pc); rewrite Ht; left; reflexivity).
    assert (O : forall a, In a (eff_out (settleSegment mt am (m1, out1, c))) ->
                          In a out1 \/ a = Console_error).
    { intros a Hin. destruct c; cbn in Hin; auto.
      apply in_app_or in Hin. destruct Hin as [Hin | [<- | []]]; auto. }
    unfold settled. cbn [migrator]. rewrite settleSegment_fields. cbn [fst].
    split.
    + intros a t Hin Ha. destruct (O _ Hin) as [Hin' | ->]; [| discriminate].
      exact (resumeMigration_tool_of _ _ _ _ _ _ _ _ _ _ _ Hr Hmt Hin' Ha).
    + intros t x Hin. destruct (O _ Hin) as [Hin' | Hin']; [| discriminate].
      exact (resumeMigration_finalize_id _ _ _ _ _ _ _ _ _ _ _ Hr Hin').
  - split.
    + intros a t [<- | []]. discriminate.
    + intros t x [Hin | []]. discriminate.
  - split.
    + intros a t Hin Ha. exact (dispatched_tool_of _ _ _ _ _ D Hin Ha).
    + intros t x Hin. clear Ee. destruct D; cbn in Hin;
        repeat (destruct Hin as [Hin | Hin]; [discriminate |]); contradiction.
  - split.
    + intros a t [<- | []]. discriminate.
    + intros t x [Hin | []]. discriminate.
  - split.
    + intros a t [<- | []]. discriminate.
    + intros t x [Hin | []]. discriminate.
  - split.
    + intros a t [<- | []]. discriminate.
    + intros t x [Hin | []]. discriminate.
  - split.
    + intros a t' [<- | Hin] Ha; [discriminate |].
      exact (dispatched_tool_of _ _ _ _ _ D Hin Ha).
    + intros t' x [Hin | Hin]; [discriminate |]. clear Ee. destruct D; cbn in Hin;
        repeat (destruct Hin as [Hin | Hin]; [discriminate |]); contradiction.
Qed.

(** ** Going quiet *)

(** X3.  The orchestrator never goes quiet silently.  When a step from a
    machine it can be in leaves nothing pending (no listener registered, no
    attempt suspended), so that nothing will ever invoke it again, the step
    has reported it: with a [migrationNotSupported] notification, or with
    [console.error], or with an error thrown to the caller.  The same holds
    of the constructor. *)
Theorem going_quiet_is_reported :
  (forall M w i M' out err,
     reachable M ->
     step w i M = Some (M', out, err) ->
     tasks M' = [] -> listeners M' = [] ->
     err <> None \/ In Console_error out \/
     exists v, In (Emit_migrationNotSupported v) out) /\
  (forall w mo t i cb M out err,
     construct w mo t i cb = (M, out, err) ->
     tasks M = [] -> listeners M = [] -> err <> None).
Proof.
  assert (D0 : forall w m e,
             dispatched w m e -> _migrationP m = None -> _migratedLoadP m = None ->
             option_list (eff_task e) = [] -> registered (eff_out e) = [] ->
             eff_thrown e <> None).
  { intros w m e D Hp Hlp Ht Hl. destruct D; cbn in *; try discriminate.
    destruct H; congruence. }
  split.
  - intros M w i M' out err R H HT HL.
    destruct (reachable_stepped _ _ _ _ _ _ R H)
      as [l e Hl Ht Hp Hlp Ee D
         | mt am pc s m1 out1 c Hl Ht It Hr
         | mt am Hl Ht Hlp Hc Hn
         | mt am e Hl Ht Hlp Hc Ee D
         | am mid Hl Ht It
         | am mid Hl Ht It
         | am mid pc s Hl Ht It Hs
         | am mid mo t e Hl Ht It Ee D].
    + left. exact (D0 _ _ _ D Hp Hlp HT HL).
    + right. left. destruct c; cbn in HT; try discriminate.
      cbn. apply in_or_app. right. left. reflexivity.
    + right. left. left. reflexivity.
    + right. left.
      pose proof (D0 _ _ _ D eq_refl Hlp HT HL) as Hthrown.
      unfold caught. destruct (eff_thrown e); [| contradiction].
      cbn. apply in_or_app. right. left. reflexivity.
    + right. right. exists (newVersion am). left. reflexivity.
    + discriminate.
    + right. left. left. reflexivity.
    + right. left. right.
      destruct It as [Hp _].
      pose proof (D0 _ _ _ D Hp eq_refl HT HL) as Hthrown.
      unfold caught. destruct (eff_thrown e); [| contradiction].
      cbn. apply in_or_app. right. left. reflexivity.
  - intros w mo t i cb M out err H HT HL.
    unfold construct, install in H. cbn [app] in H.
    match type of H with
    | context [takeAppropriateActionForCurrentMigratable w ?m] =>
        pose proof (D0 w m _ (dispatch_dispatched w m) eq_refl eq_refl) as K;
        remember (takeAppropriateActionForCurrentMigratable w m) as e0 eqn:Ee
    end.
    injection H as <- _ <-. exact (K HT HL).
Qed.

(** ** The [migrated] notifications *)

Lemma dispatched_no_migrated w m e :
  dispatched w m e -> filter is_migrated (eff_out (caught e)) = [].
Proof. intros D. destruct D; reflexivity. Qed.

Lemma resumeMigration_no_migrated w mt am pc s m m1 out1 c :
  resumeMigration w mt am pc s m = Some (m1, out1, c) ->
  filter is_migrated (eff_out (settleSegment mt am (m1, out1, c))) = [].
Proof.
  intros H.
  destruct pc, s as [[?|]|[?|]|[?|]|[?|]|[?|]|[?|]|[?|]|]; cbn in H; try discriminate;
    unfold transformAndImport, afterPrepare, completeTheMigration,
      finishTheMigration in H;
    repeat break_if; inversion H; subst; reflexivity.
Qed.

Lemma step_migrated w i M M' out err :
  machine_inv M ->
  step w i M = Some (M', out, err) ->
  filter is_migrated out = map announce (option_list (swapped i M)).
Proof.
  intros I H.
  destruct (step_stepped _ _ _ _ _ _ I H)
    as [l e Hl Ht Hp Hlp Ee D
       | mt am pc s m1 out1 c Hl Ht It Hr
       | mt am Hl Ht Hlp Hc Hn
       | mt am e Hl Ht Hlp Hc Ee D
       | am mid Hl Ht It
       | am mid Hl Ht It
       | am mid pc s Hl Ht It Hs
       | am mid mo t e Hl Ht It Ee D]; unfold swapped; rewrite ?Ht; cbn [nth_error].
  - clear Ee. destruct D; reflexivity.
  - rewrite (resumeMigration_no_migrated _ _ _ _ _ _ _ _ _ Hr).
    destruct s as [| | | | | | [[? ?]|] |]; reflexivity.
  - reflexivity.
  - rewrite (dispatched_no_migrated _ _ _ D). reflexivity.
  - reflexivity.
  - reflexivity.
  - destruct Hs as [[-> ->] | [-> ->]]; reflexivity.
  - cbn [filter is_migrated]. rewrite (dispatched_no_migrated _ _ _ D). reflexivity.
Qed.

Lemma run_migrated script : forall M M' tr,
  machine_inv M ->
  run script M = Some (M', tr) ->
  filter is_migrated tr = map announce (sessions script M).
Proof.
  induction script as [| [w i] script IH]; intros M M' tr I H; cbn in H.
  - injection H as _ <-. reflexivity.
  - cbn [sessions].
    destruct (step w i M) as [[[M1 out1] err]|] eqn:Hs; [| discriminate].
    destruct (run script M1) as [[M2 out2]|] eqn:Hr; [| discriminate].
    injection H as _ <-.
    rewrite filter_app, map_app, (step_migrated _ _ _ _ _ _ I Hs),
      (IH _ _ _ (step_inv _ _ _ _ _ _ I Hs) Hr).
    reflexivity.
Qed.

(** X4.  The [migrated] notifications tell a listener what the current
    session is.  In any run from a machine the orchestrator can be in, the
    notifications emitted are, in order, one [migrated(model, id)] for each
    session loaded; so the last one emitted carries [currentModel] and
    [currentModelId] as they are after the run, and a run that emitted none
    has left the session as it was. *)
Theorem migrated_notifications_announce_the_sessions
    (script : list (World * Input)) (M M' : Machine) (tr : list Action) :
  reachable M ->
  run script M = Some (M', tr) ->
  filter is_migrated tr = map announce (sessions script M) /\
  (forall mo i,
     last (filter is_migrated tr) Console_error = Emit_migrated mo i ->
     currentModel (migrator M') = mo /\ currentModelId (migrator M') = i) /\
  (filter is_migrated tr = [] ->
   _currentMigratable (migrator M') = _currentMigratable (migrator M)).
Proof.
  intros R H.
  pose proof (run_migrated _ _ _ _ (reachable_inv _ R) H) as E.
  pose proof (run_session _ _ _ _ H) as S.
  split; [exact E | split].
  - rewrite E. unfold currentModel, currentModelId. rewrite S.
    generalize (_currentMigratable (migrator M)) as d.
    generalize (sessions script M) as l. clear.
    assert (G : forall (l : list MigratableParts) (a : Action) mo i,
      last (map announce l) a = Emit_migrated mo i ->
      (l = [] /\ a = Emit_migrated mo i) \/
      (l <> [] /\ forall d : MigratableParts, model (last l d) = mo /\ id (last l d) = i)).
    { induction l as [| p l IH]; intros a mo i Hlast.
      - left. split; [reflexivity | exact Hlast].
      - right. split; [discriminate |]. intros d'.
        cbn [map] in Hlast. rewrite last_cons in Hlast. rewrite last_cons.
        destruct (IH (announce p) mo i Hlast) as [[-> Ha] | [_ Hl]].
        + injection Ha as <- <-. split; reflexivity.
        + apply Hl. }
    intros l d mo i Hlast.
    destruct (G l Console_error mo i Hlast) as [[_ Ha] | [_ Hl]].
    + discriminate.
    + apply Hl.
  - intros Hnil. rewrite S. rewrite E in Hnil.
    destruct (sessions script M); [reflexivity | discriminate].
Qed.

(** ** The order of the calls *)

Lemma chain_app b l1 l2 :
  chain b (l1 ++ l2) <-> chain b l1 /\ chain (last l1 b) l2.
Proof.
  revert b. induction l1 as [| a l1 IH]; intros b.
  - cbn. tauto.
  - cbn [app chain]. rewrite last_cons, IH. tauto.
Qed.

Lemma chain_pairs b tr :
  chain b tr ->
  forall pre x y post, b :: tr = pre ++ x :: y :: post -> allowed x y.
Proof.
  revert b. induction tr as [| a tr IH]; intros b C pre x y post E.
  - destruct pre as [| ? [| ? ?]]; discriminate.
  - destruct C as [A C]. destruct pre as [| p pre].
    + injection E as <- <- _. exact A.
    + injection E as _ E. exact (IH a C pre x y post E).
Qed.

Lemma dispatched_chain w m e b :
  dispatched w m e ->
  chain b (eff_out (caught e)) /\
  expects (settled e) (last (eff_out (caught e)) b).
Proof.
  intros D. destruct D; cbn; unfold expects; cbn; repeat split; auto;
    intros t Ht; try discriminate; injection Ht as <-; reflexivity.
Qed.

Lemma step_chain w i M M' out err b :
  reachable M ->
  step w i M = Some (M', out, err) ->
  expects M b ->
  chain b out /\ expects M' (last out b).
Proof.
  intros R H E.
  pose proof (reachable_bound _ R) as [_ B].
  destruct (reachable_stepped _ _ _ _ _ _ R H)
    as [l e Hl Ht Hp Hlp Ee D
       | mt am pc s m1 out1 c Hl Ht It Hr
       | mt am Hl Ht Hlp Hc Hn
       | mt am e Hl Ht Hlp Hc Ee D
       | am mid Hl Ht It
       | am mid Hl Ht It
       | am mid pc s Hl Ht It Hs
       | am mid mo t e Hl Ht It Ee D].
  - clear Ee. destruct D; cbn; unfold expects; cbn; repeat split; auto;
      intros t Ht'; try discriminate; injection Ht' as <-; reflexivity.
  - assert (Hmt : mt = currentMigrationTool (migrator M))
      by (apply (B mt am pc); rewrite Ht; left; reflexivity).
    specialize (E _ Ht). clear H B R Ht Hl.
    destruct M as [m ls ts]. cbn [migrator] in *.
    destruct pc, s as [[?|]|[?|]|[?|]|[?|]|[?|]|[?|]|[?|]|]; cbn in Hr; try discriminate;
      unfold transformAndImport, afterPrepare, completeTheMigration,
        finishTheMigration in Hr;
      repeat break_if; inversion Hr; subst; clear Hr;
      cbn in E, It |- *; unfold expects; cbn;
      (split; [| intros t' Ht'; try discriminate; injection Ht' as <-; cbn ]);
      repeat match goal with
             | H : exists _, _ |- _ => destruct H
             | H : _ /\ _ |- _ => destruct H
             end; subst; repeat split; eauto 6; try congruence; try tauto.
    right. apply E. congruence.
  - cbn. unfold expects. cbn. split; auto. intros; discriminate.
  - exact (dispatched_chain _ _ _ b D).
  - specialize (E _ Ht). cbn in E. subst b.
    cbn. unfold expects. cbn. split; auto. intros; discriminate.
  - specialize (E _ Ht). cbn in E. subst b.
    cbn. unfold expects. cbn. split; eauto.
    intros t Ht'. injection Ht' as <-. reflexivity.
  - cbn. unfold expects. cbn. split; auto. intros; discriminate.
  - specialize (E _ Ht). cbn in E. subst b.
    destruct (dispatched_chain _ _ _ (Emit_migrated mo mid) D) as [C X].
    cbn [chain allowed]. rewrite last_cons. split; [split; [reflexivity | exact C] | exact X].
Qed.

Lemma run_chain script : forall M M' tr b,
  reachable M ->
  run script M = Some (M', tr) ->
  expects M b ->
  chain b tr /\ expects M' (last tr b).
Proof.
  induction script as [| [w i] script IH]; intros M M' tr b R H E; cbn in H.
  - injection H as <- <-. split; [exact Logic.I | exact E].
  - destruct (step w i M) as [[[M1 out1] err]|] eqn:Hs; [| discriminate].
    destruct (run script M1) as [[M2 out2]|] eqn:Hr; [| discriminate].
    injection H as <- <-.
    destruct (step_chain _ _ _ _ _ _ b R Hs E) as [C1 E1].
    destruct (IH _ _ _ _ (reachable_step _ _ _ _ _ _ R Hs) Hr E1) as [C2 E2].
    rewrite chain_app, last_app_default. auto.
Qed.


(** X5.  The calls come in the order of the source.  In the trace of the
    constructor followed by any run, the first entry is the dispatcher's,
    and every action is directly preceded by the one the source orders
    before it ([allowed]): [createDetached(v)] by [supportsVersion(v)];
    [loadExistingPaused] by [createDetached]; [exportData] by
    [loadExistingPaused]; [dispose] by the [exportData] on the same model;
    [importData(model, d)] by [supportsDataFormat(model, d)] or by the
    transform callback; [attach] by [volunteerForMigration];
    [finalizeMigration] by [haveMigrationTask] on the same tool;
    [completeMigrationTask] by [finalizeMigration] on the same tool;
    [loadExisting] by [supportsVersion]; [migrated(model, id)] by
    [loadExisting(id)]; [migrating] and every listener registration by the
    entry of the dispatcher. *)
Theorem calls_follow_the_order_of_the_source
    (w : World) (mo : ModelRef) (t : ToolRef) (i : string) (cb : option CallbackRef)
    (M0 : Machine) (out0 : list Action) (err : option Error)
    (script : list (World * Input)) (M' : Machine) (tr : list Action) :
  construct w mo t i cb = (M0, out0, err) ->
  run script M0 = Some (M', tr) ->
  (exists rest, out0 ++ tr = Enter_takeAppropriateActionForCurrentMigratable :: rest) /\
  (forall pre x y post, out0 ++ tr = pre ++ x :: y :: post -> allowed x y).
Proof.
  intros Hc Hr.
  pose proof (reachable_construct _ _ _ _ _ _ _ _ Hc) as R.
  assert (C0 : exists rest,
             out0 = Enter_takeAppropriateActionForCurrentMigratable :: rest /\
             chain Enter_takeAppropriateActionForCurrentMigratable rest /\
             expects M0 (last rest Enter_takeAppropriateActionForCurrentMigratable)).
  { unfold construct, install in Hc. cbn [app] in Hc.
    match type of Hc with
    | context [takeAppropriateActionForCurrentMigratable w ?m] =>
        pose proof (dispatch_dispatched w m) as D;
        remember (takeAppropriateActionForCurrentMigratable w m) as e0 eqn:Ee
    end.
    injection Hc as <- <- _. clear Ee.
    destruct D; cbn; unfold expects; cbn; eexists; (split; [reflexivity |]);
      cbn; (split; [auto |]);
      intros t' Ht'; try discriminate; injection Ht' as <-; reflexivity. }
  destruct C0 as (rest & -> & C & E).
  destruct (run_chain _ _ _ _ _ R Hr E) as [C' _].
  split.
  - eexists. reflexivity.
  - apply chain_pairs. cbn [app chain]. apply chain_app. auto.
Qed.

Lemma calls_follow_the_order_witness :
  allowed (Call_finalizeMigration 0 "new") (Call_completeMigrationTask 0).
Proof.
  destruct (run happy started) as [[M' tr]|] eqn:E; [| vm_compute in E; discriminate].
  pose proof (proj2 (calls_follow_the_order_of_the_source
                       collaborating 1 0 "old" None started _ _ happy M' tr eq_refl E)) as H.
  vm_compute in E. injection E as _ <-.
  apply (H [Enter_takeAppropriateActionForCurrentMigratable; Once 0 "migrating";
            Enter_takeAppropriateActionForCurrentMigratable; Emit_migrating;
            Call_supportsVersion "v2"; Call_createDetached "v2";
            Call_loadExistingPaused "old" 7; Call_exportData 5;
            Call_dispose 5; Call_supportsDataFormat 11 42;
            Call_importData 11 42; Call_volunteerForMigration 0;
            Call_attach detached1; Call_haveMigrationTask 0]
           _ _
           [Enter_takeAppropriateActionForCurrentMigratable;
            Call_supportsVersion "v2"; Call_loadExisting "new";
            Emit_migrated 20 "new";
            Enter_takeAppropriateActionForCurrentMigratable;
            Once 21 "migrating"]).
  reflexivity.
Defined.

(** ** Whole migrations *)

Lemma run_app s1 s2 M :
  run (s1 ++ s2) M =
    match run s1 M with
    | Some (M1, out1) =>
        match run s2 M1 with
        | Some (M2, out2) => Some (M2, out1 ++ out2)
        | None => None
        end
    | None => None
    end.
Proof.
  revert M. induction s1 as [| [w i] s1 IH]; intros M; cbn [app run].
  - destruct (run s2 M) as [[M2 out2]|]; reflexivity.
  - destruct (step w i M) as [[[M1 out1] err]|]; [| reflexivity].
    rewrite IH. destruct (run s1 M1) as [[M1' out1']|]; [| reflexivity].
    destruct (run s2 M1') as [[M2 out2]|]; [| reflexivity].
    rewrite app_assoc. reflexivity.
Qed.

(** The step that installs a loaded session. *)
Lemma swap_step w am mid mo t m :
  let final := takeAppropriateActionForCurrentMigratable w (loaded mo t mid m) in
  _migrationP m = None ->
  step w (Settle 0 (Settle_loaded (Resolved (mo, t))))
       {| migrator := m; listeners := []; tasks := [LoadTask am mid At_loadExisting] |}
  = Some (settled final, Emit_migrated mo mid :: eff_out (caught final), None).
Proof.
  intros final Hp. cbn [step nth_error tasks resumeTask resumeLoad migrator listeners
                        remove_nth option_map].
  fold (loaded mo t mid m). fold final.
  assert (D : dispatched w (loaded mo t mid m) final) by apply dispatch_dispatched.
  clearbody final. destruct D; reflexivity.
Qed.

(** Evaluation of a run on symbolic worlds: the steps are taken one at a
    time, rewriting with what is known of the world of the step. *)
Ltac crank rew :=
  repeat first
    [ progress cbn
    | progress unfold ensureMigrating, ensureLoading, connected, migrationState,
        currentMigrationTool, thenCallback, settleSegment, caught, after,
        takeAppropriateActionForCurrentMigratable, install,
        doTheMigration, prepareTheMigration, afterPrepare, completeTheMigration,
        finishTheMigration, transformAndImport, doTheLoad
    | rew
    | rewrite andb_false_r ].

Ltac run_head rew :=
  match goal with
  | |- context [step ?w ?i ?M] =>
      let r := fresh "r" in
      let S := fresh "S" in
      evar (r : StepResult);
      assert (S : step w i M = Some r) by (subst r; crank rew; reflexivity);
      subst r; rewrite S; clear S; cbv beta iota
  end.

(** X6.  Convergence.  Whatever the session, the accepted migration and the
    values the awaited calls resolve with: when the listener fires with the
    tool in [migrating], connected, with an accepted migration; the
    successor supports the exported data; the tool is still [migrating]
    when the preparation is over, has no new container id when the
    volunteer call resolves, and still reports the task after [attach];
    and the tool is [migrated] with a new container id once
    [finalizeMigration] has resolved; then the run makes exactly the calls
    below, once each, loads the container the tool names (not the id
    [attach] returned, should they differ), installs it as the current
    session, notifies [migrated] once, and invokes the dispatcher on the
    new session. *)
Theorem migration_converges
    (W : nat -> World) (m : Migrator) (l : Listener)
    (am am' : AcceptedMigration) (d : Detached.t) (x : ModelRef) (data : Data)
    (newId migratedId : string) (mo' : ModelRef) (t' : ToolRef) :
  let t := currentMigrationTool m in
  let final := takeAppropriateActionForCurrentMigratable (W 13) (loaded mo' t' migratedId m) in
  let tr :=
    [Enter_takeAppropriateActionForCurrentMigratable; Emit_migrating;
     Call_supportsVersion (newVersion am);
     Call_createDetached (newVersion am);
     Call_loadExistingPaused (currentModelId m) (migrationSequenceNumber am);
     Call_exportData x;
     Call_dispose x;
     Call_supportsDataFormat (Detached.model d) data;
     Call_importData (Detached.model d) data;
     Call_volunteerForMigration t;
     Call_attach d;
     Call_haveMigrationTask t;
     Call_finalizeMigration t newId;
     Call_completeMigrationTask t;
     Enter_takeAppropriateActionForCurrentMigratable;
     Call_supportsVersion (newVersion am');
     Call_loadExisting migratedId;
     Emit_migrated mo' migratedId] ++ eff_out (caught final) in
  _migrationP m = None -> _migratedLoadP m = None ->
  _preparedDetachedModel m = None -> _preparedModelId m = None ->
  Tool.migrationState (tool (W 1) t) = "migrating" ->
  Tool.connected (tool (W 1) t) = true ->
  Tool.acceptedMigration (tool (W 1) t) = Some am ->
  supportsDataFormat (W 5) (Detached.model d) data = true ->
  Tool.migrationState (tool (W 7) t) = "migrating" ->
  Tool.newContainerId (tool (W 8) t) = None ->
  Tool.haveMigrationTask (tool (W 9) t) = true ->
  Tool.migrationState (tool (W 11) t) = "migrated" ->
  Tool.acceptedMigration (tool (W 11) t) = Some am' ->
  Tool.newContainerId (tool (W 11) t) = Some migratedId ->
  run (whole_migration W d x data newId mo' t')
      {| migrator := m; listeners := [l]; tasks := [] |}
  = Some (settled final, tr) /\
  _currentMigratable (migrator (settled final)) =
    {| model := mo'; migrationTool := t'; id := migratedId |} /\
  filter is_migrated tr = [Emit_migrated mo' migratedId].
Proof.
  intros t final tr Hp Hlp Hd Hid H1s H1c H1a H5 H7 H8 H9 H11s H11a H11n.
  split; [| split].
  2: { exact (dispatch_keeps_session _ _). }
  2: { assert (N : filter is_migrated (eff_out (caught final)) = [])
         by (apply (dispatched_no_migrated (W 13) (loaded mo' t' migratedId m)),
               dispatch_dispatched).
       unfold tr. rewrite filter_app, N. reflexivity. }
  subst tr.
  destruct m as [[mo0 t0 id0] cb p lp pd pid]. cbn in Hp, Hlp, Hd, Hid, t.
  subst p lp pd pid t.
  unfold whole_migration. cbn [run].
  do 12 run_head ltac:(first [ rewrite H1s | rewrite H1c | rewrite H1a | rewrite H5
                             | rewrite H7 | rewrite H8 | rewrite H9 | rewrite H11s
                             | rewrite H11a | rewrite H11n ]).
  match goal with
  | |- context [step _ _ {| migrator := ?m12; listeners := _; tasks := _ |}] =>
      rewrite (swap_step (W 13) am' migratedId mo' t' m12 eq_refl)
  end.
  cbn [app]. rewrite app_nil_r. reflexivity.
Qed.

(** X7.  A failed volunteer call is retried without preparing again.  With
    the successor prepared and the attempt awaiting
    [volunteerForMigration]: when the call rejects while the tool is
    disconnected, the attempt ends without error; the dispatcher, invoked by
    the [.then] callback while the tool is still [migrating] and
    disconnected, registers a one-time [connected] listener; and when that
    fires with the tool connected, a new attempt volunteers at once.  The
    run makes no call of the prepare phase, and the fields, the prepared
    successor among them, are as before. *)
Theorem failed_volunteer_is_retried_without_preparing
    (W : nat -> World) (m : Migrator) (am am' : AcceptedMigration) (d : Detached.t) :
  let t := currentMigrationTool m in
  _migrationP m = Some Pending -> _migratedLoadP m = None ->
  _preparedDetachedModel m = Some d ->
  Tool.connected (tool (W 1) t) = false ->
  Tool.migrationState (tool (W 2) t) = "migrating" ->
  Tool.connected (tool (W 2) t) = false ->
  Tool.migrationState (tool (W 3) t) = "migrating" ->
  Tool.connected (tool (W 3) t) = true ->
  Tool.acceptedMigration (tool (W 3) t) = Some am' ->
  run [ (W 1, Settle 0 (Settle_bool Rejected));
        (W 2, Settle 0 Tick);
        (W 3, Fire 0) ]
      {| migrator := m; listeners := [];
         tasks := [MigrationTask t am At_volunteerForMigration] |}
  = Some ({| migrator := m; listeners := [];
             tasks := [MigrationTask t am' At_volunteerForMigration] |},
          [Enter_takeAppropriateActionForCurrentMigratable; Once t "connected";
           Enter_takeAppropriateActionForCurrentMigratable; Emit_migrating;
           Call_volunteerForMigration t]).
Proof.
  intros t Hp Hlp Hd H1c H2s H2c H3s H3c H3a.
  destruct m as [[mo0 t0 id0] cb p lp pd pid]. cbn in Hp, Hlp, Hd, t.
  subst p lp pd t.
  cbn [run].
  repeat run_head ltac:(first [ rewrite H1c | rewrite H2s | rewrite H2c | rewrite H3s
                    | rewrite H3c | rewrite H3a ]).
  reflexivity.
Qed.

(** X8.  When another client completes the migration first.  With the
    attempt awaiting [volunteerForMigration]: if the tool has a new
    container id when the call resolves (whatever it resolves with), the
    attempt ends at once; and with the tool [migrated] when the [.then]
    callback runs, the orchestrator goes straight to loading the container
    the tool names.  It calls neither [attach] nor [finalizeMigration]. *)
Theorem lost_race_goes_straight_to_loading
    (W : nat -> World) (m : Migrator) (am am' : AcceptedMigration)
    (isAssigned : bool) (otherId migratedId : string) :
  let t := currentMigrationTool m in
  _migratedLoadP m = None ->
  Tool.newContainerId (tool (W 1) t) = Some otherId ->
  Tool.migrationState (tool (W 2) t) = "migrated" ->
  Tool.acceptedMigration (tool (W 2) t) = Some am' ->
  Tool.newContainerId (tool (W 2) t) = Some migratedId ->
  run [ (W 1, Settle 0 (Settle_bool (Resolved isAssigned)));
        (W 2, Settle 0 Tick) ]
      {| migrator := m; listeners := [];
         tasks := [MigrationTask t am At_volunteerForMigration] |}
  = Some ({| migrator := set_migratedLoadP (Some Pending) (set_migrationP None m);
             listeners := [];
             tasks := [LoadTask am' migratedId At_load_supportsVersion] |},
          [Enter_takeAppropriateActionForCurrentMigratable;
           Call_supportsVersion (newVersion am')]).
Proof.
  intros t Hlp H1n H2s H2a H2n.
  destruct m as [[mo0 t0 id0] cb p lp pd pid]. cbn in Hlp, t.
  subst lp t.
  cbn [run].
  repeat run_head ltac:(first [ rewrite H1n | rewrite H2s | rewrite H2a | rewrite H2n ]).
  reflexivity.
Qed.

(** X9.  A lost task assignment does not make the orchestrator attach
    twice.  With the attempt awaiting [attach]: when [attach] resolves with
    an id but the tool no longer reports the task, the attempt ends without
    calling [finalizeMigration]; when the [.then] callback finds the tool
    disconnected and still [migrating], the dispatcher waits for
    [connected]; and the attempt started on reconnection volunteers and then
    calls [finalizeMigration] with the id of the earlier [attach], without
    calling [attach] again. *)
Theorem lost_task_is_retried_without_attaching_again
    (W : nat -> World) (m : Migrator) (am am' : AcceptedMigration) (d : Detached.t)
    (preparedModelId : string) :
  let t := currentMigrationTool m in
  _migrationP m = Some Pending -> _migratedLoadP m = None ->
  _preparedDetachedModel m = Some d -> _preparedModelId m = None ->
  Tool.haveMigrationTask (tool (W 1) t) = false ->
  Tool.migrationState (tool (W 2) t) = "migrating" ->
  Tool.connected (tool (W 2) t) = false ->
  Tool.migrationState (tool (W 3) t) = "migrating" ->
  Tool.connected (tool (W 3) t) = true ->
  Tool.acceptedMigration (tool (W 3) t) = Some am' ->
  Tool.newContainerId (tool (W 4) t) = None ->
  Tool.haveMigrationTask (tool (W 4) t) = true ->
  run [ (W 1, Settle 0 (Settle_id (Resolved preparedModelId)));
        (W 2, Settle 0 Tick);
        (W 3, Fire 0);
        (W 4, Settle 0 (Settle_bool (Resolved true))) ]
      {| migrator := m; listeners := []; tasks := [MigrationTask t am At_attach] |}
  = Some ({| migrator := set_preparedModelId (Some preparedModelId) m;
             listeners := [];
             tasks := [MigrationTask t am' At_finalizeMigration] |},
          [Call_haveMigrationTask t;
           Enter_takeAppropriateActionForCurrentMigratable; Once t "connected";
           Enter_takeAppropriateActionForCurrentMigratable; Emit_migrating;
           Call_volunteerForMigration t;
           Call_haveMigrationTask t; Call_finalizeMigration t preparedModelId]).
Proof.
  intros t Hp Hlp Hd Hid H1t H2s H2c H3s H3c H3a H4n H4t.
  destruct m as [[mo0 t0 id0] cb p lp pd pid]. cbn in Hp, Hlp, Hd, Hid, t.
  subst p lp pd pid t.
  cbn [run].
  repeat run_head ltac:(first [ rewrite H1t | rewrite H2s | rewrite H2c | rewrite H3s
                    | rewrite H3c | rewrite H3a | rewrite H4n | rewrite H4t ]).
  reflexivity.
Qed.



(** ** Where the published container comes from *)

Lemma attach_results_app s1 s2 :
  attach_results (s1 ++ s2) = attach_results s1 ++ attach_results s2.
Proof.
  induction s1 as [| [w [n | n [| | | | | [i |] | |]]] s1 IH]; cbn; rewrite ?IH; reflexivity.
Qed.

Lemma dispatched_provenance w m e :
  dispatched w m e ->
  _preparedDetachedModel (eff_m e) = _preparedDetachedModel m /\
  _preparedModelId (eff_m e) = _preparedModelId m /\
  (forall mt am d, eff_task e <> Some (MigrationTask mt am (At_importData d))) /\
  (forall d, ~ In (Call_attach d) (eff_out (caught e))) /\
  (forall t i, ~ In (Call_finalizeMigration t i) (eff_out (caught e))).
Proof.
  intros D. destruct D; cbn; repeat split; try discriminate;
    intros; intro Hin;
    repeat (destruct Hin as [Hin | Hin]; [discriminate |]); contradiction.
Qed.

(** What one step adds to the account. *)
Lemma step_accounted w i M M' out err h ids :
  reachable M ->
  step w i M = Some (M', out, err) ->
  accounted M h ids ->
  accounted M' (h ++ out) (ids ++ attach_results [(w, i)]) /\
  (forall d, In (Call_attach d) out ->
     exists x, In (Call_importData (Detached.model d) x) h) /\
  (forall t x, In (Call_finalizeMigration t x) out ->
     In x (ids ++ attach_results [(w, i)])).
Proof.
  intros R H (A1 & A2 & A3).
  assert (Acc : forall M1 out1 ids1,
             (forall d, _preparedDetachedModel (migrator M1) = Some d ->
                _preparedDetachedModel (migrator M) = Some d) ->
             (forall mt am d, tasks M1 <> [MigrationTask mt am (At_importData d)]) ->
             (forall i, _preparedModelId (migrator M1) = Some i ->
                _preparedModelId (migrator M) = Some i) ->
             accounted M1 (h ++ out1) (ids ++ ids1)).
  { intros M1 out1 ids1 B1 B2 B3. split; [| split].
    - intros d Hd. destruct (A1 d (B1 d Hd)) as [x Hx]. exists x.
      apply in_or_app. left. exact Hx.
    - intros mt am d Ht. destruct (B2 mt am d Ht).
    - intros j Hj. apply in_or_app. left. exact (A3 j (B3 j Hj)). }
  destruct (reachable_stepped _ _ _ _ _ _ R H)
    as [l e Hl Ht Hp Hlp Ee D
       | mt am pc s m1 out1 c Hl Ht It Hr
       | mt am Hl Ht Hlp Hc Hn
       | mt am e Hl Ht Hlp Hc Ee D
       | am mid Hl Ht It
       | am mid Hl Ht It
       | am mid pc s Hl Ht It Hs
       | am mid mo t e Hl Ht It Ee D].
  - destruct (dispatched_provenance _ _ _ D) as (P1 & P2 & P3 & P4 & P5).
    assert (O : forall a, In a (eff_out e) -> In a (eff_out (caught e))).
    { intros a Ha. unfold caught. destruct (eff_thrown e); [| exact Ha].
      cbn. apply in_or_app. left. exact Ha. }
    split; [| split].
    + apply Acc; unfold settled; cbn [migrator tasks].
      * intros d. rewrite P1. auto.
      * intros mt am d Ht'. destruct (eff_task e) as [t0|]; [| discriminate].
        injection Ht' as ->. exact (P3 mt am d eq_refl).
      * intros j. rewrite P2. auto.
    + intros d Hin. destruct (P4 d (O _ Hin)).
    + intros t x Hin. destruct (P5 t x (O _ Hin)).
  - clear R H.
    destruct M as [m ls ts]. cbn [migrator tasks listeners] in *. subst ts ls.
    unfold accounted, settled.
    destruct pc, s as [[?|]|[?|]|[?|]|[?|]|[?|]|[?|]|[?|]|]; cbn in Hr; try discriminate;
      unfold transformAndImport, afterPrepare, completeTheMigration,
        finishTheMigration in Hr;
      repeat break_if; inversion Hr; subst; clear Hr; cbn in It |- *;
      (split; [split; [| split] | split]).
    all: cbn in *; intros.
    all: repeat match goal with
                | H : _ \/ _ |- _ => destruct H
                | H : False |- _ => destruct H
                end; try discriminate.
    all: repeat match goal with
                | H : Call_attach _ = Call_attach _ |- _ => injection H as <-
                | H : Call_finalizeMigration _ _ = Call_finalizeMigration _ _ |- _ =>
                    injection H as <- <-
                | H : [_] = [_] |- _ => injection H as <- <- <-
                | H : Some _ = Some _ |- _ => injection H as <-
                end.
    all: try (apply in_or_app; first [ left; apply A3; first [assumption | reflexivity | congruence]
                                     | right; left; reflexivity ]).
    all: try (match goal with
              | |- exists x, In (Call_importData (Detached.model ?d) x) _ =>
                  destruct (A1 d) as [x0 Hx0];
                  [first [assumption | reflexivity | congruence] |]
              end;
              exists x0; try apply in_or_app; auto; fail).
    all: try (edestruct A2 as [x0 Hx0]; [reflexivity |];
              exists x0; try apply in_or_app; auto; fail).
    all: try (eexists; apply in_or_app; right; cbn; eauto; fail).
  - split; [| split].
    + apply Acc; cbn; auto. intros; discriminate.
    + intros d [Hin | []]. discriminate.
    + intros t x [Hin | []]. discriminate.
  - destruct (dispatched_provenance _ _ _ D) as (P1 & P2 & P3 & P4 & P5).
    split; [| split].
    + apply Acc; unfold settled; cbn [migrator tasks].
      * intros d. rewrite P1. auto.
      * intros mt' am' d Ht'. destruct (eff_task e) as [t0|]; [| discriminate].
        injection Ht' as ->. exact (P3 mt' am' d eq_refl).
      * intros j. rewrite P2. auto.
    + intros d Hin. destruct (P4 d Hin).
    + intros t x Hin. destruct (P5 t x Hin).
  - split; [| split].
    + apply Acc; cbn; auto. intros; discriminate.
    + intros d [Hin | []]. discriminate.
    + intros t x [Hin | []]. discriminate.
  - split; [| split].
    + apply Acc; cbn; auto. intros; discriminate.
    + intros d [Hin | []]. discriminate.
    + intros t x [Hin | []]. discriminate.
  - split; [| split].
    + apply Acc; cbn; auto. intros; discriminate.
    + intros d [Hin | []]. discriminate.
    + intros t x [Hin | []]. discriminate.
  - destruct (dispatched_provenance _ _ _ D) as (P1 & P2 & P3 & P4 & P5).
    split; [| split].
    + apply Acc; unfold settled; cbn [migrator tasks].
      * intros d. rewrite P1. cbn. discriminate.
      * intros mt' am' d Ht'. destruct (eff_task e) as [t0|]; [| discriminate].
        injection Ht' as ->. exact (P3 mt' am' d eq_refl).
      * intros j. rewrite P2. cbn. discriminate.
    + intros d [Hin | Hin]; [discriminate |]. destruct (P4 d Hin).
    + intros t' x [Hin | Hin]; [discriminate |]. destruct (P5 t' x Hin).
Qed.

Lemma app_split {A} (h out pre : list A) (a : A) (post : list A) :
  h ++ out = pre ++ a :: post ->
  (exists post', h = pre ++ a :: post' /\ post = post' ++ out) \/
  (exists pre', pre = h ++ pre' /\ out = pre' ++ a :: post).
Proof.
  revert pre. induction h as [| b h IH]; intros pre E.
  - right. exists pre. split; [reflexivity | exact E].
  - destruct pre as [| p pre]; cbn in E; injection E as -> E.
    + left. exists h. split; [reflexivity | symmetry; exact E].
    + destruct (IH pre E) as [(post' & -> & ->) | (pre' & -> & ->)].
      * left. exists post'. split; reflexivity.
      * right. exists pre'. split; reflexivity.
Qed.

Lemma run_accounted script : forall M M' tr h ids,
  reachable M ->
  run script M = Some (M', tr) ->
  accounted M h ids ->
  (forall pre d post, h = pre ++ Call_attach d :: post ->
     exists x, In (Call_importData (Detached.model d) x) pre) ->
  (forall t x, In (Call_finalizeMigration t x) h -> In x ids) ->
  (forall pre d post, h ++ tr = pre ++ Call_attach d :: post ->
     exists x, In (Call_importData (Detached.model d) x) pre) /\
  (forall t x, In (Call_finalizeMigration t x) (h ++ tr) ->
     In x (ids ++ attach_results script)).
Proof.
  induction script as [| [w i] script IH]; intros M M' tr h ids R H A P1 P2; cbn [run] in H.
  - injection H as _ <-. cbn [attach_results]. rewrite !app_nil_r.
    split; assumption.
  - destruct (step w i M) as [[[M1 out1] err]|] eqn:Hs; [| discriminate].
    destruct (run script M1) as [[M2 out2]|] eqn:Hr; [| discriminate].
    injection H as _ <-.
    destruct (step_accounted _ _ _ _ _ _ h ids R Hs A) as (A' & Q1 & Q2).
    change ((w, i) :: script) with ([(w, i)] ++ script).
    rewrite attach_results_app, !app_assoc.
    apply (IH _ _ _ _ _ (reachable_step _ _ _ _ _ _ R Hs) Hr A').
    + intros pre d post E.
      destruct (app_split _ _ _ _ _ E) as [(post' & -> & _) | (pre' & -> & ->)].
      * exact (P1 _ _ _ eq_refl).
      * destruct (Q1 d ltac:(apply in_or_app; right; left; reflexivity)) as [x Hx].
        exists x. apply in_or_app. left. exact Hx.
    + intros t x Hin. apply in_app_or in Hin. destruct Hin as [Hin | Hin].
      * apply in_or_app. left. exact (P2 _ _ Hin).
      * exact (Q2 _ _ Hin).
Qed.

(** X12.  What is published was prepared.  In the trace of the constructor
    followed by any run: every [attach()] is on a detached model into which
    an [importData] call has been made before; and every
    [finalizeMigration(id)] is given an id that an [attach()] awaited in
    the run resolved with. *)
Theorem published_container_was_prepared
    (w : World) (mo : ModelRef) (t : ToolRef) (i : string) (cb : option CallbackRef)
    (M0 : Machine) (out0 : list Action) (err : option Error)
    (script : list (World * Input)) (M' : Machine) (tr : list Action) :
  construct w mo t i cb = (M0, out0, err) ->
  run script M0 = Some (M', tr) ->
  (forall pre d post, out0 ++ tr = pre ++ Call_attach d :: post ->
     exists x, In (Call_importData (Detached.model d) x) pre) /\
  (forall t' x, In (Call_finalizeMigration t' x) (out0 ++ tr) ->
     In x (attach_results script)).
Proof.
  intros Hc Hr.
  pose proof (reachable_construct _ _ _ _ _ _ _ _ Hc) as R.
  unfold construct, install in Hc. cbn [app] in Hc.
  match type of Hc with
  | context [takeAppropriateActionForCurrentMigratable w ?m] =>
      pose proof (dispatch_dispatched w m) as D;
      remember (takeAppropriateActionForCurrentMigratable w m) as e0 eqn:Ee
  end.
  injection Hc as <- <- _. clear Ee.
  destruct (dispatched_provenance _ _ _ D) as (P1 & P2 & P3 & P4 & P5).
  assert (O : forall a, In a (eff_out e0) -> In a (eff_out (caught e0))).
  { intros a Ha. unfold caught. destruct (eff_thrown e0); [| exact Ha].
    cbn. apply in_or_app. left. exact Ha. }
  apply (run_accounted script _ M' tr (eff_out e0) [] R Hr).
  - split; [| split]; cbn [migrator tasks].
    + intros d. rewrite P1. discriminate.
    + intros mt am d Ht. destruct (eff_task e0) as [t0|]; [| discriminate].
      injection Ht as ->. destruct (P3 mt am d eq_refl).
    + intros j. rewrite P2. discriminate.
  - intros pre d post E. destruct (P4 d). apply O. rewrite E.
    apply in_or_app. right. left. reflexivity.
  - intros t' x Hin. destruct (P5 t' x (O _ Hin)).
Qed.

(** ** Errors thrown to the caller *)

Lemma dispatch_thrown w m e :
  _migrationP m = None -> _migratedLoadP m = None ->
  eff_thrown (takeAppropriateActionForCurrentMigratable w m) = Some e ->
  missing_data_error e /\
  (e = Error_ "Expect an accepted migration before migration starts" ->
   Tool.migrationState (tool w (currentMigrationTool m)) = "migrating" /\
   Tool.acceptedMigration (tool w (currentMigrationTool m)) = None) /\
  (e <> Error_ "Expect an accepted migration before migration starts" ->
   Tool.migrationState (tool w (currentMigrationTool m)) = "migrated").
Proof.
  intros Hp Hlp.
  unfold takeAppropriateActionForCurrentMigratable, after, ensureMigrating, ensureLoading,
    doTheMigration, afterPrepare, completeTheMigration, prepareTheMigration, doTheLoad,
    connected, migrationState.
  rewrite Hp, Hlp. cbn [isSome].
  destruct (Tool.migrationState (tool w (currentMigrationTool m)) =? "migrating") eqn:E1.
  - apply String.eqb_eq in E1.
    destruct (Tool.connected _); cbn [negb]; [| discriminate].
    destruct (Tool.acceptedMigration _) eqn:Ea.
    + destruct (_preparedDetachedModel m); [rewrite E1 |]; cbn; discriminate.
    + cbn. intros H. injection H as <-. unfold missing_data_error.
      split; [auto | split; [auto | congruence]].
  - destruct (Tool.migrationState (tool w (currentMigrationTool m)) =? "migrated") eqn:E2;
      [| discriminate].
    apply String.eqb_eq in E2. apply String.eqb_neq in E1.
    destruct (Tool.acceptedMigration _) eqn:Ea;
      [destruct (Tool.newContainerId _) eqn:En |]; cbn; try discriminate;
      intros H; injection H as <-; unfold missing_data_error;
      (split; [auto | split; [intros; discriminate | auto]]).
Qed.

(** X13.  The only errors the orchestrator throws to a caller are the
    missing-data errors of its entry points, and only to the constructor's
    caller or to the event emitter that fires a listener, with the tool in
    [migrating] or in [migrated].  Resuming an attempt never throws to
    anyone; and where it invokes the dispatcher itself (the [.then]
    callback, line 296, and the load executor, line 353), the dispatcher
    can again only throw a missing-data error, which [console.error]
    consumes.  So the two mutual-exclusion errors (lines 140 and 309) are
    never thrown in a machine the orchestrator can be in. *)
Theorem only_missing_data_errors_are_thrown :
  (forall w mo t i cb M out err e,
     construct w mo t i cb = (M, out, err) -> err = Some e ->
     missing_data_error e /\
     (Tool.migrationState (tool w t) = "migrating" \/
      Tool.migrationState (tool w t) = "migrated")) /\
  (forall M w i M' out err e,
     reachable M ->
     step w i M = Some (M', out, err) -> err = Some e ->
     i = Fire 0 /\ missing_data_error e /\
     (Tool.migrationState (tool w (currentMigrationTool (migrator M))) = "migrating" \/
      Tool.migrationState (tool w (currentMigrationTool (migrator M))) = "migrated")) /\
  (forall M w mt am e,
     reachable M ->
     tasks M = [MigrationTask mt am At_then] ->
     eff_thrown (takeAppropriateActionForCurrentMigratable w
                   (set_migrationP None (migrator M))) = Some e ->
     missing_data_error e) /\
  (forall M w am mid mo t e,
     reachable M ->
     tasks M = [LoadTask am mid At_loadExisting] ->
     eff_thrown (takeAppropriateActionForCurrentMigratable w
                   (loaded mo t mid (migrator M))) = Some e ->
     missing_data_error e).
Proof.
  assert (G : forall w m e,
             _migrationP m = None -> _migratedLoadP m = None ->
             eff_thrown (takeAppropriateActionForCurrentMigratable w m) = Some e ->
             missing_data_error e /\
             (Tool.migrationState (tool w (currentMigrationTool m)) = "migrating" \/
              Tool.migrationState (tool w (currentMigrationTool m)) = "migrated")).
  { intros w m e Hp Hlp H.
    destruct (dispatch_thrown w m e Hp Hlp H) as (A & B & C).
    split; [exact A |].
    destruct A as [-> | [-> | ->]].
    - left. apply B. reflexivity.
    - right. apply C. discriminate.
    - right. apply C. discriminate. }
  assert (T : forall M t, reachable M -> tasks M = [t] -> task_inv (migrator M) t).
  { intros M t R Ht. destruct (reachable_inv _ R) as [_ I]. rewrite Ht in I.
    destruct (listeners M) as [| l ls]; [exact I | destruct I]. }
  split; [| split; [| split]].
  - intros w mo t i cb M out err e H ->.
    unfold construct, install in H. cbn [app] in H.
    match type of H with
    | context [takeAppropriateActionForCurrentMigratable w ?m] =>
        pose proof (G w m e eq_refl eq_refl) as K;
        remember (takeAppropriateActionForCurrentMigratable w m) as e0 eqn:Ee
    end.
    injection H as _ _ H. exact (K H).
  - intros M w i M' out err e R H ->.
    destruct (enabled_input w i M _ (reachable_inv _ R) H)
      as [(l & -> & Hl & Ht & Hp & Hlp & E) | (t & s & e0 & -> & Hl & Ht & It & He & E)].
    + split; [reflexivity |].
      remember (takeAppropriateActionForCurrentMigratable w (migrator M)) as e1 eqn:Ee.
      unfold install in E. injection E as _ _ E. subst e1.
      exact (G _ _ _ Hp Hlp (eq_sym E)).
    + exfalso.
      pose proof (step_stepped _ _ _ _ _ _ (reachable_inv _ R) H) as S.
      inversion S.
  - intros M w mt am e R Ht H.
    destruct (T _ _ R Ht) as [Hlp _].
    exact (proj1 (G w (set_migrationP None (migrator M)) e eq_refl Hlp H)).
  - intros M w am mid mo t e R Ht H.
    destruct (T _ _ R Ht) as [Hp _].
    exact (proj1 (G w (loaded mo t mid (migrator M)) e Hp eq_refl H)).
Qed.

(** ** A loaded session *)

Lemma dispatch_afresh w m :
  _migrationP m = None -> _migratedLoadP m = None -> _preparedDetachedModel m = None ->
  let e := takeAppropriateActionForCurrentMigratable w m in
  let v := tool w (currentMigrationTool m) in
  _preparedDetachedModel (eff_m e) = None /\
  _preparedModelId (eff_m e) = _preparedModelId m /\
  (forall t, eff_task e = Some t ->
     (exists am, t = MigrationTask (currentMigrationTool m) am At_supportsVersion /\
                 Tool.migrationState v = "migrating" /\
                 Tool.acceptedMigration v = Some am) \/
     (exists am i, t = LoadTask am i At_load_supportsVersion /\
                   Tool.migrationState v = "migrated" /\
                   Tool.acceptedMigration v = Some am /\
                   Tool.newContainerId v = Some i)).
Proof.
  intros Hp Hlp Hd. cbv zeta.
  unfold takeAppropriateActionForCurrentMigratable, after, ensureMigrating, ensureLoading,
    doTheMigration, afterPrepare, completeTheMigration, prepareTheMigration, doTheLoad,
    connected, migrationState.
  rewrite Hp, Hlp, Hd. cbn [isSome].
  destruct (Tool.migrationState (tool w (currentMigrationTool m)) =? "migrating") eqn:E1.
  - apply String.eqb_eq in E1.
    destruct (Tool.connected _); cbn [negb].
    + destruct (Tool.acceptedMigration _) eqn:Ea; cbn.
      * repeat split; auto. intros t Ht. injection Ht as <-. left. eauto.
      * repeat split; auto. intros; discriminate.
    + cbn. repeat split; auto. intros; discriminate.
  - destruct (Tool.migrationState (tool w (currentMigrationTool m)) =? "migrated") eqn:E2.
    + apply String.eqb_eq in E2.
      destruct (Tool.acceptedMigration _) eqn:Ea;
        [destruct (Tool.newContainerId _) eqn:En |]; cbn.
      * repeat split; auto. intros t Ht. injection Ht as <-. right. eauto 6.
      * repeat split; auto. intros; discriminate.
      * repeat split; auto. intros; discriminate.
    + cbn. repeat split; auto. intros; discriminate.
Qed.

(** X14.  A loaded session starts afresh.  The step that installs a loaded
    session clears the prepared successor and its id before it invokes the
    dispatcher on the new session, and throws nothing.  So whatever that
    invocation starts, it starts from the new session's own tool: a
    migration attempt begins with the version check for the migration that
    the new tool has accepted, a load is for the container id that the new
    tool names, and a listener is on the new tool.  Nothing of the old
    session is used again. *)
Theorem loaded_session_starts_afresh
    (M : Machine) (w : World) (i : Input) (M' : Machine) (out : list Action)
    (err : option Error) (p : MigratableParts) :
  reachable M ->
  step w i M = Some (M', out, err) ->
  swapped i M = Some p ->
  let v := tool w (migrationTool p) in
  _currentMigratable (migrator M') = p /\
  _preparedDetachedModel (migrator M') = None /\
  _preparedModelId (migrator M') = None /\
  err = None /\
  (forall t, In t (tasks M') ->
     (exists am, t = MigrationTask (migrationTool p) am At_supportsVersion /\
                 Tool.migrationState v = "migrating" /\
                 Tool.acceptedMigration v = Some am) \/
     (exists am j, t = LoadTask am j At_load_supportsVersion /\
                   Tool.migrationState v = "migrated" /\
                   Tool.acceptedMigration v = Some am /\
                   Tool.newContainerId v = Some j)) /\
  (forall l, In l (listeners M') ->
     l = (migrationTool p, "migrating") \/ l = (migrationTool p, "connected")).
Proof.
  intros R H Hsw v.
  pose proof (step_session _ _ _ _ _ _ H) as Hs. rewrite Hsw in Hs.
  destruct (reachable_stepped _ _ _ _ _ _ R H)
    as [l e Hl Ht Hp Hlp Ee D
       | mt am pc s m1 out1 c Hl Ht It Hr
       | mt am Hl Ht Hlp Hc Hn
       | mt am e Hl Ht Hlp Hc Ee D
       | am mid Hl Ht It
       | am mid Hl Ht It
       | am mid pc s Hl Ht It Hs'
       | am mid mo t e Hl Ht It Ee D];
    unfold swapped in Hsw; rewrite ?Ht in Hsw; cbn [nth_error] in Hsw; try discriminate.
  - destruct s as [| | | | | | [[? ?]|] |]; discriminate.
  - destruct Hs' as [[-> ->] | [-> ->]]; discriminate.
  - injection Hsw as <-. subst v. cbn [migrationTool].
    destruct It as [Hp _].
    pose proof (dispatch_afresh w (loaded mo t mid (migrator M)) Hp eq_refl eq_refl) as A.
    cbv zeta in A. rewrite <- Ee in A. destruct A as (A1 & A2 & A3).
    pose proof (dispatch_listeners w (loaded mo t mid (migrator M))) as L.
    cbv zeta in L. rewrite <- Ee in L.
    unfold settled in *. cbn [migrator tasks listeners] in *.
    split; [exact Hs | split; [exact A1 | split; [exact A2 | split; [reflexivity | split]]]].
    + intros t0 Hin. destruct (eff_task e) as [t1|]; [| destruct Hin].
      destruct Hin as [<- | []]. exact (A3 _ eq_refl).
    + intros l Hin. destruct L as [L | [L | L]]; rewrite L in Hin;
        [destruct Hin | |]; destruct Hin as [<- | []]; auto.
Qed.

(** ** One [attach()] per session *)

Lemma attach_once_app b tr1 tr2 :
  attach_once b (tr1 ++ tr2) =
    match attach_once b tr1 with
    | Some b' => attach_once b' tr2
    | None => None
    end.
Proof.
  revert b. induction tr1 as [| a tr1 IH]; intros b; [reflexivity |].
  destruct a; cbn [app attach_once]; try apply IH.
  destruct b; [reflexivity | apply IH].
Qed.

Lemma dispatched_attach_once w m e b :
  dispatched w m e ->
  _migrationP m = None -> _migratedLoadP m = None ->
  attach_once b (eff_out (caught e)) = Some b /\
  (_preparedModelId m <> None -> attach_called (settled e)).
Proof.
  intros D Hp Hlp. destruct D; cbn; (split; [reflexivity |]);
    intros Hid; left; exact Hid.
Qed.

Lemma step_attach_once w i M M' out err b :
  reachable M ->
  step w i M = Some (M', out, err) ->
  (b = true -> attach_called M) ->
  exists b', attach_once b out = Some b' /\ (b' = true -> attach_called M').
Proof.
  intros R H A.
  destruct (reachable_stepped _ _ _ _ _ _ R H)
    as [l e Hl Ht Hp Hlp Ee D
       | mt am pc s m1 out1 c Hl Ht It Hr
       | mt am Hl Ht Hlp Hc Hn
       | mt am e Hl Ht Hlp Hc Ee D
       | am mid Hl Ht It
       | am mid Hl Ht It
       | am mid pc s Hl Ht It Hs
       | am mid mo t e Hl Ht It Ee D].
  - exists b. clear Ee.
    assert (A' : b = true -> _preparedModelId (migrator M) <> None).
    { intros Hb. destruct (A Hb) as [Hid | [(mt & am & Ht') | [_ Hl']]];
        [exact Hid | rewrite Ht in Ht'; discriminate | rewrite Hl in Hl'; discriminate]. }
    destruct D; cbn; (split; [reflexivity |]); intros Hb; left; exact (A' Hb).
  - clear R H.
    destruct M as [m ls ts]. cbn [migrator tasks listeners] in *. subst ts ls.
    unfold attach_called in *. cbn [migrator tasks listeners] in A.
    destruct pc, s as [[?|]|[?|]|[?|]|[?|]|[?|]|[?|]|[?|]|]; cbn in Hr; try discriminate;
      unfold transformAndImport, afterPrepare, completeTheMigration,
        finishTheMigration in Hr;
      repeat break_if; inversion Hr; subst; clear Hr; cbn in It;
      unfold settled; cbn [settleSegment done eff_m eff_out eff_task app option_list
                           migrator tasks listeners registered].
    all: first
      [ (* the stretch threw: nothing is left pending *)
        exists b; split; [reflexivity |];
        intros _; right; right; split; reflexivity
      | (* the stretch called attach() *)
        destruct b;
        [ exfalso; destruct (A eq_refl) as [Hid | [(mt' & am' & Ht') | [Ht' _]]];
          [ congruence | discriminate | discriminate ]
        | exists true; split; [reflexivity |];
          intros _; right; left; eexists _, _; reflexivity ]
      | (* any other stretch *)
        exists b; split; [reflexivity |];
        intros Hb; left;
        destruct (A Hb) as [Hid | [(mt' & am' & Ht') | [Ht' _]]];
        [ cbn; first [exact Hid | discriminate | congruence]
        | first [discriminate | cbn; discriminate]
        | discriminate ] ].
  - exists b. split; [reflexivity |]. intros _. right. right. split; reflexivity.
  - exists b.
    assert (A' : b = true -> _preparedModelId (migrator M) <> None).
    { intros Hb. destruct (A Hb) as [Hid | [(mt' & am' & Ht') | [Ht' _]]];
        [exact Hid | rewrite Ht in Ht'; discriminate | rewrite Ht in Ht'; discriminate]. }
    destruct (dispatched_attach_once _ _ _ b D eq_refl Hlp) as [O K].
    split; [exact O |]. intros Hb. exact (K (A' Hb)).
  - exists b. split; [reflexivity |]. intros _. right. right. split; reflexivity.
  - exists b. split; [reflexivity |]. intros Hb. left.
    destruct (A Hb) as [Hid | [(mt' & am' & Ht') | [Ht' _]]];
      [exact Hid | rewrite Ht in Ht'; discriminate | rewrite Ht in Ht'; discriminate].
  - exists b. split; [reflexivity |]. intros _. right. right. split; reflexivity.
  - exists false. destruct It as [Hp _].
    destruct (dispatched_attach_once _ _ _ false D Hp eq_refl) as [O _].
    cbn [attach_once]. split; [exact O | discriminate].
Qed.

Lemma run_attach_once script : forall M M' tr b,
  reachable M ->
  run script M = Some (M', tr) ->
  (b = true -> attach_called M) ->
  exists b', attach_once b tr = Some b' /\ (b' = true -> attach_called M').
Proof.
  induction script as [| [w i] script IH]; intros M M' tr b R H A; cbn [run] in H.
  - injection H as <- <-. exists b. split; [reflexivity | exact A].
  - destruct (step w i M) as [[[M1 out1] err]|] eqn:Hs; [| discriminate].
    destruct (run script M1) as [[M2 out2]|] eqn:Hr; [| discriminate].
    injection H as <- <-.
    destruct (step_attach_once _ _ _ _ _ _ b R Hs A) as (b1 & O1 & A1).
    destruct (IH _ _ _ b1 (reachable_step _ _ _ _ _ _ R Hs) Hr A1) as (b2 & O2 & A2).
    exists b2. rewrite attach_once_app, O1. split; [exact O2 | exact A2].
Qed.

(** X15.  At most one [attach()] per session.  In the trace of the
    constructor followed by any run, whatever the surroundings do, no two
    [attach()] calls come without a [migrated] notification in between:
    the monitor [attach_once] accepts the trace.  After the call the
    orchestrator is awaiting it, or holds the id it resolved with, or has
    stopped. *)
Theorem attach_is_called_at_most_once_per_session
    (w : World) (mo : ModelRef) (t : ToolRef) (i : string) (cb : option CallbackRef)
    (M0 : Machine) (out0 : list Action) (err : option Error)
    (script : list (World * Input)) (M' : Machine) (tr : list Action) :
  construct w mo t i cb = (M0, out0, err) ->
  run script M0 = Some (M', tr) ->
  (exists b, attach_once false (out0 ++ tr) = Some b /\ (b = true -> attach_called M')) /\
  (forall pre d mid d' post,
     out0 ++ tr = pre ++ Call_attach d :: mid ++ Call_attach d' :: post ->
     exists mo' i', In (Emit_migrated mo' i') mid).
Proof.
  intros Hc Hr.
  pose proof (reachable_construct _ _ _ _ _ _ _ _ Hc) as R.
  assert (O0 : attach_once false out0 = Some false).
  { unfold construct, install in Hc. cbn [app] in Hc.
    match type of Hc with
    | context [takeAppropriateActionForCurrentMigratable w ?m] =>
        pose proof (dispatch_dispatched w m) as D;
        remember (takeAppropriateActionForCurrentMigratable w m) as e0 eqn:Ee
    end.
    injection Hc as _ <- _. clear Ee. destruct D; reflexivity. }
  destruct (run_attach_once _ _ _ _ false R Hr ltac:(discriminate)) as (b & O & A).
  assert (E : attach_once false (out0 ++ tr) = Some b)
    by (rewrite attach_once_app, O0; exact O).
  split; [exists b; split; [exact E | exact A] |].
  intros pre d mid d' post Hsplit. rewrite Hsplit in E. clear - E.
  rewrite attach_once_app in E.
  destruct (attach_once false pre) as [b0|]; [| discriminate].
  cbn [attach_once] in E. destruct b0; [discriminate |].
  rewrite attach_once_app in E.
  assert (G : forall l b1, attach_once true l = Some b1 ->
                b1 = true \/ exists mo' i', In (Emit_migrated mo' i') l).
  { induction l as [| a l IH]; intros b1 H.
    - injection H as <-. left. reflexivity.
    - destruct a; cbn [attach_once] in H;
        try (destruct (IH _ H) as [-> | (mo' & i' & Hin)];
             [left; reflexivity | right; exists mo', i'; right; exact Hin]).
      + right. eexists _, _. left. reflexivity.
      + discriminate. }
  destruct (attach_once true mid) as [b1|] eqn:Em; [| discriminate].
  destruct (G _ _ Em) as [-> | X]; [| exact X].
  cbn [attach_once] in E. discriminate.
Qed.

Lemma attach_once_witness :
  exists M' tr,
    run happy started = Some (M', tr) /\
    attach_once false tr = Some false.
Proof.
  destruct (run happy started) as [[M' tr]|] eqn:E; [| vm_compute in E; discriminate].
  destruct (proj1 (attach_is_called_at_most_once_per_session collaborating 1 0 "old" None
                     started _ _ happy M' tr eq_refl E)) as (b & O & _).
  exists M', tr. split; [reflexivity |].
  vm_compute in E. injection E as _ <-. reflexivity.
Defined.

(** ** The theorems above, at the worked session *)

Lemma started_reachable : reachable started.
Proof.
  eapply reachable_construct with (w := collaborating) (mo := 1) (t := 0)
    (i := "old") (cb := None). reflexivity.
Qed.

Lemma loading_machine_reachable : reachable loading_machine.
Proof.
  destruct (run (firstn 12 happy) started) as [[M tr]|] eqn:E;
    [| vm_compute in E; discriminate].
  pose proof (run_reachable _ _ _ _ started_reachable E) as R'.
  unfold loading_machine. rewrite E. exact R'.
Qed.

(** Discharge the hypotheses of a statement that hold by computation. *)
Ltac discharge H :=
  repeat match type of H with
         | ?A -> _ =>
             let h := fresh in
             assert (h : A) by reflexivity; specialize (H h); clear h
         end.

Lemma tool_interactions_witness : bound_to_current_tool prepared_machine.
Proof.
  exact (proj1 (tool_interactions_are_with_the_current_tool
                  prepared_machine prepared_machine_reachable)).
Defined.

Lemma going_quiet_witness :
  exists M' out,
    step migrating (Settle 0 (Settle_detached Rejected)) creating_machine
      = Some (M', out, None) /\
    (None <> (None : option Error) \/ In Console_error out \/
     exists v, In (Emit_migrationNotSupported v) out).
Proof.
  destruct (step migrating (Settle 0 (Settle_detached Rejected)) creating_machine)
    as [[[M' out] err]|] eqn:E; [| vm_compute in E; discriminate].
  assert (Herr : err = None) by (vm_compute in E; congruence).
  subst err. exists M', out. split; [reflexivity |].
  apply (proj1 going_quiet_is_reported creating_machine migrating _ M' out None
           creating_machine_reachable E);
    vm_compute in E; injection E as <- _; reflexivity.
Defined.

Lemma migrated_notifications_witness :
  exists M' tr,
    run happy started = Some (M', tr) /\
    filter is_migrated tr = [Emit_migrated 20 "new"] /\
    currentModel (migrator M') = 20 /\ currentModelId (migrator M') = "new".
Proof.
  destruct (run happy started) as [[M' tr]|] eqn:E; [| vm_compute in E; discriminate].
  destruct (migrated_notifications_announce_the_sessions happy started M' tr
              started_reachable E) as (F & L & _).
  assert (F' : filter is_migrated tr = [Emit_migrated 20 "new"]).
  { vm_compute in E. injection E as _ <-. reflexivity. }
  exists M', tr. split; [reflexivity |]. split; [exact F' |].
  apply L. rewrite F'. reflexivity.
Defined.

Lemma migration_converges_witness :
  exists M tr,
    run (whole_migration happy_worlds detached1 5 42 "new" 20 21)
        {| migrator := idle; listeners := [(0, "migrating")]; tasks := [] |}
      = Some (M, tr) /\
    _currentMigratable (migrator M) = {| model := 20; migrationTool := 21; id := "new" |}.
Proof.
  pose proof (migration_converges happy_worlds idle (0, "migrating") v2 v2 detached1 5 42
                "new" "new" 20 21) as H.
  cbv zeta in H. discharge H.
  destruct H as (E & S & _).
  eexists _, _. split; [exact E | exact S].
Defined.

Lemma failed_volunteer_witness :
  exists M tr,
    run [ (retry_worlds 1, Settle 0 (Settle_bool Rejected));
          (retry_worlds 2, Settle 0 Tick);
          (retry_worlds 3, Fire 0) ]
        {| migrator := prepared; listeners := [];
           tasks := [MigrationTask 0 v2 At_volunteerForMigration] |}
      = Some (M, tr) /\
    filter is_prepare_call tr = [].
Proof.
  pose proof (failed_volunteer_is_retried_without_preparing retry_worlds prepared v2 v2
                detached1) as H.
  cbv zeta in H. discharge H.
  eexists _, _. split; [exact H | reflexivity].
Defined.

Lemma lost_race_witness :
  exists M tr,
    run [ (migrated, Settle 0 (Settle_bool (Resolved true)));
          (migrated, Settle 0 Tick) ]
        {| migrator := prepared; listeners := [];
           tasks := [MigrationTask 0 v2 At_volunteerForMigration] |}
      = Some (M, tr) /\
    filter is_attach tr = [].
Proof.
  pose proof (lost_race_goes_straight_to_loading (fun _ => migrated) prepared v2 v2 true
                "new" "new") as H.
  cbv zeta in H. discharge H.
  eexists _, _. split; [exact H | reflexivity].
Defined.

Lemma lost_task_witness :
  exists M tr,
    run [ (retry_worlds 1, Settle 0 (Settle_id (Resolved "new")));
          (retry_worlds 2, Settle 0 Tick);
          (retry_worlds 3, Fire 0);
          (retry_worlds 4, Settle 0 (Settle_bool (Resolved true))) ]
        {| migrator := prepared; listeners := []; tasks := [MigrationTask 0 v2 At_attach] |}
      = Some (M, tr) /\
    filter is_attach tr = [].
Proof.
  pose proof (lost_task_is_retried_without_attaching_again retry_worlds prepared v2 v2
                detached1 "new") as H.
  cbv zeta in H. discharge H.
  eexists _, _. split; [exact H | reflexivity].
Defined.


Lemma published_container_witness :
  exists M' tr,
    run happy started = Some (M', tr) /\
    In "new" (attach_results happy).
Proof.
  destruct (run happy started) as [[M' tr]|] eqn:E; [| vm_compute in E; discriminate].
  exists M', tr. split; [reflexivity |].
  apply (proj2 (published_container_was_prepared collaborating 1 0 "old" None
                  started _ _ happy M' tr eq_refl E) 0 "new").
  vm_compute in E. injection E as _ <-. cbn. auto 20.
Defined.

Lemma only_missing_data_errors_witness :
  missing_data_error (Error_ "Expect an accepted migration before migration starts").
Proof.
  destruct (construct migrating_unaccepted 1 0 "old" None) as [[M out] err] eqn:E.
  refine (proj1 (proj1 only_missing_data_errors_are_thrown
                   migrating_unaccepted 1 0 "old" None M out err _ E _)).
  vm_compute in E. injection E as _ _ <-. reflexivity.
Defined.

Lemma loaded_session_witness :
  exists M' out err,
    step collaborating (Settle 0 (Settle_loaded (Resolved (20, 21)))) loading_machine
      = Some (M', out, err) /\
    _preparedDetachedModel (migrator M') = None /\
    listeners M' = [(21, "migrating")].
Proof.
  destruct (step collaborating (Settle 0 (Settle_loaded (Resolved (20, 21)))) loading_machine)
    as [[[M' out] err]|] eqn:E; [| vm_compute in E; discriminate].
  pose proof (loaded_session_starts_afresh loading_machine collaborating _ M' out err
                {| model := 20; migrationTool := 21; id := "new" |}
                loading_machine_reachable E) as H.
  assert (Hs : swapped (Settle 0 (Settle_loaded (Resolved (20, 21)))) loading_machine =
               Some {| model := 20; migrationTool := 21; id := "new" |})
    by (vm_compute; reflexivity).
  specialize (H Hs). cbv zeta in H. destruct H as (_ & Hd & _).
  exists M', out, err. split; [reflexivity |]. split; [exact Hd |].
  vm_compute in E. injection E as <- _ _. reflexivity.
Defined.

